(** * GroupStore: the data-access layer of user groups and their memberships

    A shallow embedding of [src/lib/db/group-store.ts].  The store issues
    statements through a query builder (knex) against three tables, [groups],
    [group_user] and [users], and maps the rows that come back to plain
    objects.  A promise becomes a computation over an explicit world (the
    persisted tables, the copy an open transaction works on, and the list of
    statements sent so far) that ends in a value or in a rejection.
    [delete], [deleteAll] and [destroy] take no part in what is proved and are
    left out. *)

From Stdlib Require Import ZArith String Bool Arith Lia List Permutation.
Import ListNotations.

Set Implicit Arguments.

(** ** Rejections *)

(** [NotFoundError] is thrown by the row mappings; the other kinds come from
    the persistence gateway and are passed on unchanged. *)
Inductive Error : Type :=
| NotFoundError
| ConstraintViolation
| ConnectivityFailure
| TransactionComplete.

Inductive Result (A : Type) : Type :=
| Ok (a : A)
| Err (e : Error).

Arguments Ok {A} a.
Arguments Err {A} e.

(** ** Rows and objects *)

(** The names of [const T]. *)
Inductive Table : Type := GROUPS | GROUP_USER | USERS.

(** A row of [groups], with the columns of [GROUP_COLUMNS]. *)
Module GroupRow.
Record t : Type := mk {
    id : Z;
    name : string;
    description : option string;
    created_at : Z;
    created_by : option string
  }.
End GroupRow.

(** A row of [group_user], as [addNewUsersToGroup] builds it. *)
Module GroupUserRow.
Record t : Type := mk {
    group_id : Z;
    user_id : Z;
    type : string;
    created_by : string
  }.
End GroupUserRow.

(** A row of [users]; only the key is read by this store. *)
Module UserRow.
Record t : Type := mk { id : Z }.
End UserRow.

(** Modelled from the spec: class [Group] of [../types/group], which is not
    among the sources at hand.  The spec calls the row mapping trivial, so the
    constructor is taken to store its five arguments. *)
Module Group.
Record t : Type := mk {
    id : Z;
    name : string;
    description : option string;
    createdAt : Z;
    createdBy : option string
  }.
End Group.

(** The argument of [create].  [IStoreGroup] names [name] and [description];
    the objects that callers pass are whole groups, so the creator they carry
    is kept here to say what [create] does with it. *)
Module IStoreGroup.
Record t : Type := mk {
    name : string;
    description : option string;
    createdBy : option string
  }.
End IStoreGroup.

(** The fields of [IGroupModel] that [update] reads.  A [description] of
    [None] is one the caller left out ([undefined]). *)
Module IGroupModel.
Record t : Type := mk {
    id : Z;
    name : string;
    description : option string
  }.
End IGroupModel.

Module IUser.
Record t : Type := mk { id : Z }.
End IUser.

Module IGroupUserModel.
Record t : Type := mk {
    user : IUser.t;
    type : string
  }.
End IGroupUserModel.

Module IGroupUser.
Record t : Type := mk {
    userId : Z;
    groupId : Z;
    type : string
  }.
End IGroupUser.

(** The object literal that [groupToRow] returns and that [update] builds.
    A [description] of [None] is [undefined]: knex inserts the column's
    default for it (null) and leaves it out of an update. *)
Module GroupColumns.
Record t : Type := mk {
    name : string;
    description : option string
  }.
End GroupColumns.

(** ** The persisted state *)

Record Db : Type := mkDb {
  groups : list GroupRow.t;
  group_user : list GroupUserRow.t;
  users : list UserRow.t
}.

(** Modelled from the spec: the constraints that the migrations of the
    repository (not among the sources at hand) declare on the tables.  The
    spec names a unique group name, one membership per (group, user) pair and
    foreign keys from a membership to its group and user; each is a switch
    here, so that a result says which of them it relies on.  The key of
    [groups] is its serial [id] throughout. *)
Record Schema : Type := mkSchema {
  group_name_unique : bool;
  membership_unique : bool;
  membership_refs : bool
}.

(** A handle on which statements are issued: the connection pool ([this.db])
    or the transaction that [transaction] hands to its handler. *)
Inductive Knex : Type := Pool | Trx.

(** What is sent to the gateway. *)
Inductive Statement : Type :=
| BEGIN
| COMMIT
| ROLLBACK
| Select (k : Knex) (t : Table)
| InsertReturning (k : Knex) (t : Table) (row : GroupColumns.t)
| UpdateReturning (k : Knex) (t : Table) (id : Z) (row : GroupColumns.t)
| BatchInsert (k : Knex) (t : Table) (rows : list GroupUserRow.t)
| DeleteWhereIn (k : Knex) (t : Table) (keys : list (Z * Z)).

(** The world of one session: what is committed, the copy that the open
    transaction (if any) reads and writes, the sequence behind [groups.id]
    (sequences are not rolled back), and every statement sent so far.  Other
    sessions and their interleavings are outside the model. *)
Record World : Type := mkWorld {
  committed : Db;
  inflight : option Db;
  groups_id_seq : Z;
  log : list Statement
}.

Definition M (A : Type) : Type := World -> Result A * World.

Definition ret {A} (a : A) : M A := fun w => (Ok a, w).

Definition fail {A} (e : Error) : M A := fun w => (Err e, w).

Definition bind {A B} (m : M A) (f : A -> M B) : M B :=
  fun w =>
    match m w with
    | (Ok a, w') => f a w'
    | (Err e, w') => (Err e, w')
    end.

Definition lift {A} (r : Result A) : M A := fun w => (r, w).

Notation "x <- m ;; k" := (bind m (fun x => k))
  (at level 61, m at next level, right associativity).
Notation "m ;;; k" := (bind m (fun _ => k))
  (at level 61, right associativity).

Definition with_committed (d : Db) (w : World) : World :=
  mkWorld d (inflight w) (groups_id_seq w) (log w).

Definition with_inflight (o : option Db) (w : World) : World :=
  mkWorld (committed w) o (groups_id_seq w) (log w).

Definition with_seq (n : Z) (w : World) : World :=
  mkWorld (committed w) (inflight w) n (log w).

Definition record (s : Statement) (w : World) : World :=
  mkWorld (committed w) (inflight w) (groups_id_seq w) (log w ++ [s]).

Definition with_groups (g : list GroupRow.t) (d : Db) : Db :=
  mkDb g (group_user d) (users d).

Definition with_group_user (m : list GroupUserRow.t) (d : Db) : Db :=
  mkDb (groups d) m (users d).

(** The tables a handle sees, and where its writes go.  A transaction handle
    whose transaction is over has nothing to read. *)
Definition snapshot (k : Knex) (w : World) : option Db :=
  match k with
  | Pool => Some (committed w)
  | Trx => inflight w
  end.

Definition publish (k : Knex) (d : Db) (w : World) : World :=
  match k with
  | Pool => with_committed d w
  | Trx => with_inflight (Some d) w
  end.

(** ** Keys and constraint checks *)

Definition key (r : GroupUserRow.t) : Z * Z :=
  (GroupUserRow.group_id r, GroupUserRow.user_id r).

Definition key_eqb (a b : Z * Z) : bool :=
  Z.eqb (fst a) (fst b) && Z.eqb (snd a) (snd b).

Definition key_in (a : Z * Z) (keys : list (Z * Z)) : bool :=
  existsb (key_eqb a) keys.

Definition has_group (i : Z) (d : Db) : bool :=
  existsb (fun r => Z.eqb (GroupRow.id r) i) (groups d).

Definition has_user (i : Z) (d : Db) : bool :=
  existsb (fun r => Z.eqb (UserRow.id r) i) (users d).

Definition has_name (n : string) (rows : list GroupRow.t) : bool :=
  existsb (fun r => String.eqb (GroupRow.name r) n) rows.

(** ** Sample worlds *)

(** A schema with every constraint on, and one with none. *)
Definition strict : Schema := mkSchema true true true.

Definition lax : Schema := mkSchema false false false.

(** A gateway that never fails, and one that loses statement [k]. *)
Definition calm : nat -> bool := fun _ => false.

Definition lost_at (k : nat) : nat -> bool := fun n => Nat.eqb n k.

(** Group 1, "admins", with user 10 as its member; group 2, "guests", with
    user 10 as well. *)
Definition admins_db : Db :=
  mkDb
    [GroupRow.mk 1 "admins" None 0 None; GroupRow.mk 2 "guests" None 0 None]
    [GroupUserRow.mk 1 10 "member" "root";
     GroupUserRow.mk 2 10 "member" "root"]
    [UserRow.mk 10; UserRow.mk 11].

Definition admins : World := mkWorld admins_db None 2 [].

Definition add_owner : list IGroupUserModel.t :=
  [IGroupUserModel.mk (IUser.mk 11) "owner"].

Definition remove_member : list IGroupUser.t :=
  [IGroupUser.mk 10 1 "member"].

Definition remove_owner : list IGroupUser.t :=
  [IGroupUser.mk 11 1 "owner"].

Definition remove_guest : list IGroupUser.t :=
  [IGroupUser.mk 10 2 "member"].

(** User 10 once more, who is a member of group 1 already, and a user
    without a row in [users]. *)
Definition add_member_again : list IGroupUserModel.t :=
  [IGroupUserModel.mk (IUser.mk 10) "owner"].

Definition add_stranger : list IGroupUserModel.t :=
  [IGroupUserModel.mk (IUser.mk 99) "member"].

Definition rename_admins : IGroupModel.t :=
  IGroupModel.mk 1 "root" (Some "all"%string).

Definition new_devs : IStoreGroup.t :=
  IStoreGroup.mk "devs" (Some "developers"%string) (Some "ann"%string).

(** ** The persistence gateway *)

Section GroupStore.

(** The schema in force, and the statements (counted from the first one sent)
    at which the transport to storage fails. *)
Variable schema : Schema.
Variable outage : nat -> bool.

(** One statement on handle [k]: it is sent, may be lost to an outage, and
    otherwise runs on the tables that [k] sees; a statement that storage
    refuses changes no table. *)
Definition statement {A} (k : Knex) (s : Statement)
    (run : Db -> M (A * Db)) : M A :=
  fun w =>
    match snapshot k w with
    | None => (Err TransactionComplete, w)
    | Some d =>
        let w1 := record s w in
        if outage (length (log w)) then (Err ConnectivityFailure, w1)
        else
          match run d w1 with
          | (Ok (a, d'), w2) => (Ok a, publish k d' w2)
          | (Err e, w2) => (Err e, w2)
          end
    end.

(** [this.db.transaction(handler)]: the handler works on a copy of what is
    committed; the copy is committed when the handler resolves and dropped
    when it rejects or when the commit does not reach storage.  What a handler
    sends on the pool instead of its handle is outside the transaction and is
    committed at once. *)
Definition transaction {A} (handler : Knex -> M A) : M A :=
  fun w =>
    let outer := inflight w in
    let w1 := record BEGIN w in
    if outage (length (log w)) then (Err ConnectivityFailure, w1)
    else
      match handler Trx (with_inflight (Some (committed w)) w1) with
      | (Ok a, w2) =>
          let w3 := with_inflight outer (record COMMIT w2) in
          if outage (length (log w2)) then (Err ConnectivityFailure, w3)
          else
            match inflight w2 with
            | Some d => (Ok a, with_committed d w3)
            | None => (Err TransactionComplete, w3)
            end
      | (Err e, w2) => (Err e, with_inflight outer (record ROLLBACK w2))
      end.

Definition nextval : M Z :=
  fun w => let n := (groups_id_seq w + 1)%Z in (Ok n, with_seq n w).

(** The value of [now()]: the number of statements sent so far. *)
Definition now : M Z :=
  fun w => (Ok (Z.of_nat (length (log w))), w).

(** [k(T.GROUPS).where({ id }).first()] *)
Definition where_id_first (k : Knex) (i : Z) : M (option GroupRow.t) :=
  statement k (Select k GROUPS)
    (fun d => ret (find (fun r => Z.eqb (GroupRow.id r) i) (groups d), d)).

(** [k.select(GROUP_COLUMNS).from(T.GROUPS)] *)
Definition select_groups (k : Knex) : M (list GroupRow.t) :=
  statement k (Select k GROUPS) (fun d => ret (groups d, d)).

(** [SELECT EXISTS (SELECT 1 FROM groups WHERE id = ?) AS present] *)
Definition raw_exists_id (k : Knex) (i : Z) : M bool :=
  statement k (Select k GROUPS) (fun d => ret (has_group i d, d)).

(** [SELECT EXISTS (SELECT 1 FROM groups WHERE name = ?) AS present] *)
Definition raw_exists_name (k : Knex) (n : string) : M bool :=
  statement k (Select k GROUPS) (fun d => ret (has_name n (groups d), d)).

(** [k(T.GROUPS).insert(row).returning('*')]: storage draws the [id] from the
    sequence, stamps [created_at] and leaves [created_by] null. *)
Definition insert_returning (k : Knex) (row : GroupColumns.t)
    : M (list GroupRow.t) :=
  statement k (InsertReturning k GROUPS row)
    (fun d =>
       i <- nextval ;;
       t <- now ;;
       let r := GroupRow.mk i (GroupColumns.name row)
                  (GroupColumns.description row) t None in
       if has_group i d
          || (group_name_unique schema
              && has_name (GroupColumns.name row) (groups d))
       then fail ConstraintViolation
       else ret ([r], with_groups (groups d ++ [r]) d)).

(** What an update leaves in a column: the value given, or the stored one
    when the value is [undefined]. *)
Definition assign (given stored : option string) : option string :=
  match given with
  | Some d => Some d
  | None => stored
  end.

Definition rename (i : Z) (row : GroupColumns.t) (r : GroupRow.t)
    : GroupRow.t :=
  if Z.eqb (GroupRow.id r) i
  then GroupRow.mk (GroupRow.id r) (GroupColumns.name row)
         (assign (GroupColumns.description row) (GroupRow.description r))
         (GroupRow.created_at r) (GroupRow.created_by r)
  else r.

Definition holders (n : string) (rows : list GroupRow.t) : nat :=
  length (filter (fun r => String.eqb (GroupRow.name r) n) rows).

(** [k(T.GROUPS).where({ id }).update(row).returning(GROUP_COLUMNS)]: the
    matching rows get the values of [row] that are defined, and come back. *)
Definition where_id_update_returning (k : Knex) (i : Z)
    (row : GroupColumns.t) : M (list GroupRow.t) :=
  statement k (UpdateReturning k GROUPS i row)
    (fun d =>
       let rows := map (rename i row) (groups d) in
       if group_name_unique schema && has_group i d
          && Nat.ltb 1 (holders (GroupColumns.name row) rows)
       then fail ConstraintViolation
       else
         ret (filter (fun r => Z.eqb (GroupRow.id r) i) rows,
              with_groups rows d)).

(** Whether storage refuses membership [r] on top of tables [d]. *)
Definition refused (d : Db) (r : GroupUserRow.t) : bool :=
  (membership_unique schema && key_in (key r) (map key (group_user d)))
  || (membership_refs schema
      && negb (has_group (GroupUserRow.group_id r) d
               && has_user (GroupUserRow.user_id r) d)).

Fixpoint insert_rows (d : Db) (rows : list GroupUserRow.t) : Result Db :=
  match rows with
  | [] => Ok d
  | r :: rest =>
      if refused d r then Err ConstraintViolation
      else insert_rows (with_group_user (group_user d ++ [r]) d) rest
  end.

(** [k.batchInsert(T.GROUP_USER, rows)].  knex cuts the rows into chunks and
    inserts them inside a transaction of its own (a savepoint when [k] is a
    transaction), so for the caller every row is in or none is. *)
Definition batchInsert (k : Knex) (rows : list GroupUserRow.t) : M unit :=
  statement k (BatchInsert k GROUP_USER rows)
    (fun d =>
       match insert_rows d rows with
       | Ok d' => ret (tt, d')
       | Err e => fail e
       end).

(** [k(T.GROUP_USER).whereIn(['group_id', 'user_id'], keys).delete()] *)
Definition whereIn_delete (k : Knex) (keys : list (Z * Z)) : M unit :=
  statement k (DeleteWhereIn k GROUP_USER keys)
    (fun d =>
       ret (tt,
            with_group_user
              (filter (fun r => negb (key_in (key r) keys)) (group_user d))
              d)).

(** The join of [getAllUsersByGroups]: memberships of the listed groups,
    paired with the user they point to. *)
Definition join_users (groupIds : list Z) (d : Db)
    : list (option GroupUserRow.t) :=
  flat_map
    (fun gu =>
       if existsb (Z.eqb (GroupUserRow.group_id gu)) groupIds
       then
         map
           (fun u =>
              Some (GroupUserRow.mk (GroupUserRow.group_id gu) (UserRow.id u)
                      (GroupUserRow.type gu) (GroupUserRow.created_by gu)))
           (filter
              (fun u => Z.eqb (UserRow.id u) (GroupUserRow.user_id gu))
              (users d))
       else [])
    (group_user d).

Definition select_join_users (k : Knex) (groupIds : list Z)
    : M (list (option GroupUserRow.t)) :=
  statement k (Select k GROUP_USER) (fun d => ret (join_users groupIds d, d)).

(** ** The store *)

Definition rowToGroup (row : option GroupRow.t) : Result Group.t :=
  match row with
  | None => Err NotFoundError
  | Some row =>
      Ok (Group.mk (GroupRow.id row) (GroupRow.name row)
            (GroupRow.description row) (GroupRow.created_at row)
            (GroupRow.created_by row))
  end.

Definition rowToGroupUser (row : option GroupUserRow.t)
    : Result IGroupUser.t :=
  match row with
  | None => Err NotFoundError
  | Some row =>
      Ok (IGroupUser.mk (GroupUserRow.user_id row)
            (GroupUserRow.group_id row) (GroupUserRow.type row))
  end.

Definition groupToRow (user : IStoreGroup.t) : GroupColumns.t :=
  GroupColumns.mk (IStoreGroup.name user) (IStoreGroup.description user).

(** [rows.map(f)] for a mapping that may throw. *)
Fixpoint map_result {A B} (f : A -> Result B) (rows : list A)
    : Result (list B) :=
  match rows with
  | [] => Ok []
  | row :: rest =>
      match f row with
      | Err e => Err e
      | Ok b =>
          match map_result f rest with
          | Err e => Err e
          | Ok bs => Ok (b :: bs)
          end
      end
  end.

Definition update (group : IGroupModel.t) : M Group.t :=
  rows <- where_id_update_returning Pool (IGroupModel.id group)
            (GroupColumns.mk (IGroupModel.name group)
               (IGroupModel.description group)) ;;
  lift (rowToGroup (nth_error rows 0)).

Definition getAllUsersByGroups (groupIds : list Z) : M (list IGroupUser.t) :=
  rows <- select_join_users Pool groupIds ;;
  lift (map_result rowToGroupUser rows).

Definition getAll : M (list Group.t) :=
  groups <- select_groups Pool ;;
  lift (map_result rowToGroup (map Some groups)).

Definition exists_ (id : Z) : M bool :=
  raw_exists_id Pool id.

Definition existsWithName (name : string) : M bool :=
  raw_exists_name Pool name.

Definition get (id : Z) : M Group.t :=
  row <- where_id_first Pool id ;;
  lift (rowToGroup row).

Definition create (group : IStoreGroup.t) : M Group.t :=
  row <- insert_returning Pool (groupToRow group) ;;
  lift (rowToGroup (nth_error row 0)).

(** [transaction || this.db] *)
Definition or_db (transaction : option Knex) : Knex :=
  match transaction with
  | Some tx => tx
  | None => Pool
  end.

Definition addNewUsersToGroup (groupId : Z)
    (users : list IGroupUserModel.t) (userName : string)
    (transaction : option Knex) : M unit :=
  let rows :=
    map
      (fun user =>
         GroupUserRow.mk groupId (IUser.id (IGroupUserModel.user user))
           (IGroupUserModel.type user) userName)
      users in
  batchInsert (or_db transaction) rows.

Definition deleteOldUsersFromGroup (deletableUsers : list IGroupUser.t)
    (transaction : option Knex) : M unit :=
  whereIn_delete (or_db transaction)
    (map (fun user => (IGroupUser.groupId user, IGroupUser.userId user))
       deletableUsers).

Definition updateGroupUsers (groupId : Z)
    (newUsers : list IGroupUserModel.t)
    (deletableUsers : list IGroupUser.t) (userName : string) : M unit :=
  transaction
    (fun tx =>
       addNewUsersToGroup groupId newUsers userName (Some tx) ;;;
       deleteOldUsersFromGroup deletableUsers (Some tx)).

(** ** Vocabulary of the statements *)

(** No statement sent from [w] on is lost to an outage. *)
Definition online (w : World) : Prop :=
  forall n, (length (log w) <= n)%nat -> outage n = false.

(** The rows that [addNewUsersToGroup] hands to [batchInsert], and the keys
    that [deleteOldUsersFromGroup] hands to [whereIn]. *)
Definition membership_rows (groupId : Z) (users : list IGroupUserModel.t)
    (userName : string) : list GroupUserRow.t :=
  map
    (fun user =>
       GroupUserRow.mk groupId (IUser.id (IGroupUserModel.user user))
         (IGroupUserModel.type user) userName)
    users.

Definition removal_keys (deletableUsers : list IGroupUser.t)
    : list (Z * Z) :=
  map (fun user => (IGroupUser.groupId user, IGroupUser.userId user))
    deletableUsers.

Definition added_keys (groupId : Z) (users : list IGroupUserModel.t)
    : list (Z * Z) :=
  map (fun user => (groupId, IUser.id (IGroupUserModel.user user))) users.

(** Row [r] is the membership that entry [u] asks for. *)
Definition stamped (groupId : Z) (userName : string)
    (u : IGroupUserModel.t) (r : GroupUserRow.t) : Prop :=
  GroupUserRow.group_id r = groupId
  /\ GroupUserRow.user_id r = IUser.id (IGroupUserModel.user u)
  /\ GroupUserRow.type r = IGroupUserModel.type u
  /\ GroupUserRow.created_by r = userName.

(** The world after a call that leaves [d] committed and has sent [sent]. *)
Definition settled (d : Db) (sent : list Statement) (w : World) : World :=
  mkWorld d (inflight w) (groups_id_seq w) (log w ++ sent).

(** The statements of one call: all of them between [BEGIN] and the end of
    the transaction, and both changes on the transaction's handle. *)
Definition one_transaction (ins del : Statement) (sent : list Statement)
    : Prop :=
  sent = [BEGIN]
  \/ sent = [BEGIN; ins; ROLLBACK]
  \/ sent = [BEGIN; ins; del; ROLLBACK]
  \/ sent = [BEGIN; ins; del; COMMIT].

(** The memberships that a call with these arguments leaves alone. *)
Definition untouched (groupId : Z) (newUsers : list IGroupUserModel.t)
    (deletableUsers : list IGroupUser.t) (r : GroupUserRow.t) : bool :=
  negb (key_in (key r) (added_keys groupId newUsers))
  && negb (key_in (key r) (removal_keys deletableUsers)).


(** C3 as the spec words it: whatever is removed along with it, reconciling
    a non-empty add set a second time fails on the duplicate pairs. *)
Definition second_call_always_fails : Prop :=
  forall (groupId : Z) (newUsers : list IGroupUserModel.t)
         (deletableUsers : list IGroupUser.t) (userName : string)
         (w w1 : World),
    membership_unique schema = true ->
    newUsers <> [] ->
    updateGroupUsers groupId newUsers deletableUsers userName w
    = (Ok tt, w1) ->
    online w1 ->
    exists w2,
      updateGroupUsers groupId newUsers deletableUsers userName w1
      = (Err ConstraintViolation, w2).

(** World [w'] is [w] with statement [s] sent and nothing else changed. *)
Definition only_sent (s : Statement) (w w' : World) : Prop :=
  committed w' = committed w
  /\ inflight w' = inflight w
  /\ groups_id_seq w' = groups_id_seq w
  /\ log w' = log w ++ [s].

(** ** Lists, keys and rows *)

Lemma key_eqb_eq (a b : Z * Z) : key_eqb a b = true <-> a = b.
Proof.
  destruct a as [a1 a2], b as [b1 b2]; unfold key_eqb; simpl.
  rewrite andb_true_iff, !Z.eqb_eq.
  split; [intros [-> ->]; reflexivity | intros H; inversion H; auto].
Qed.

Lemma key_in_In (a : Z * Z) (keys : list (Z * Z)) :
  key_in a keys = true <-> In a keys.
Proof.
  unfold key_in. rewrite existsb_exists. split.
  - intros (b & Hb & E). apply key_eqb_eq in E. subst. exact Hb.
  - intros H. exists a. split; [exact H | apply key_eqb_eq; reflexivity].
Qed.

Lemma key_in_false (a : Z * Z) (keys : list (Z * Z)) :
  key_in a keys = false <-> ~ In a keys.
Proof.
  rewrite <- key_in_In. destruct (key_in a keys); split; intros H.
  - discriminate H.
  - destruct H. reflexivity.
  - intros E. discriminate E.
  - reflexivity.
Qed.

Lemma has_group_false (i : Z) (d : Db) :
  has_group i d = false <->
  (forall r, In r (groups d) -> GroupRow.id r <> i).
Proof.
  unfold has_group. split.
  - intros H r Hr E.
    assert (X : existsb (fun r => Z.eqb (GroupRow.id r) i) (groups d) = true).
    { apply existsb_exists. exists r. split; [exact Hr | apply Z.eqb_eq, E]. }
    congruence.
  - intros H.
    destruct (existsb _ (groups d)) eqn:E; [ | reflexivity].
    apply existsb_exists in E. destruct E as (r & Hr & E).
    apply Z.eqb_eq in E. destruct (H r Hr E).
Qed.

Lemma find_absent (i : Z) (rows : list GroupRow.t) :
  (forall r, In r rows -> GroupRow.id r <> i) ->
  find (fun r => Z.eqb (GroupRow.id r) i) rows = None.
Proof.
  intros H. destruct (find _ rows) as [r | ] eqn:E; [ | reflexivity].
  apply find_some in E. destruct E as [Hr E]. apply Z.eqb_eq in E.
  destruct (H r Hr E).
Qed.

Lemma find_appended (i : Z) (rows : list GroupRow.t) (r : GroupRow.t) :
  (forall r', In r' rows -> GroupRow.id r' <> i) ->
  GroupRow.id r = i ->
  find (fun r => Z.eqb (GroupRow.id r) i) (rows ++ [r]) = Some r.
Proof.
  intros H E. induction rows as [ | r' rows IH]; simpl.
  - rewrite (proj2 (Z.eqb_eq _ _) E). reflexivity.
  - destruct (Z.eqb (GroupRow.id r') i) eqn:E'.
    + apply Z.eqb_eq in E'. destruct (H r' (or_introl eq_refl) E').
    + apply IH. intros r'' Hr''. apply H. right. exact Hr''.
Qed.

Lemma online_next (w : World) : online w -> outage (length (log w)) = false.
Proof. intros H. apply H. apply Nat.le_refl. Qed.

(** ** What the gateway does with a batch *)

Lemma insert_rows_ok (rows : list GroupUserRow.t) :
  forall d d',
    insert_rows d rows = Ok d' ->
    d' = with_group_user (group_user d ++ rows) d.
Proof.
  induction rows as [ | r rest IH]; intros d d' H; simpl in H.
  - inversion H; subst. unfold with_group_user. rewrite app_nil_r.
    destruct d'; reflexivity.
  - destruct (refused d r); [discriminate H | ].
    apply IH in H. subst d'. unfold with_group_user; simpl.
    rewrite <- app_assoc. reflexivity.
Qed.

Lemma insert_rows_err (rows : list GroupUserRow.t) :
  forall d e, insert_rows d rows = Err e -> e = ConstraintViolation.
Proof.
  induction rows as [ | r rest IH]; intros d e H; simpl in H.
  - discriminate H.
  - destruct (refused d r); [inversion H; reflexivity | eapply IH; eauto].
Qed.

(** A row whose key is already in the table makes the whole batch fail when
    memberships are unique. *)
Lemma insert_rows_duplicate (rows : list GroupUserRow.t) :
  forall d r,
    membership_unique schema = true ->
    In r rows ->
    In (key r) (map key (group_user d)) ->
    insert_rows d rows = Err ConstraintViolation.
Proof.
  induction rows as [ | r' rest IH]; intros d r U Hin Hdup; simpl.
  - destruct Hin.
  - destruct (refused d r') eqn:Hr; [reflexivity | ].
    destruct Hin as [-> | Hin].
    + unfold refused in Hr. rewrite U in Hr. simpl in Hr.
      rewrite (proj2 (key_in_In _ _) Hdup) in Hr. discriminate Hr.
    + apply (IH _ r U Hin). simpl. rewrite map_app, in_app_iff.
      left. exact Hdup.
Qed.

Lemma batchInsert_run (k : Knex) (rows : list GroupUserRow.t) (w : World) :
  batchInsert k rows w =
  match snapshot k w with
  | None => (Err TransactionComplete, w)
  | Some d =>
      let w1 := record (BatchInsert k GROUP_USER rows) w in
      if outage (length (log w)) then (Err ConnectivityFailure, w1)
      else
        match insert_rows d rows with
        | Ok d' => (Ok tt, publish k d' w1)
        | Err e => (Err e, w1)
        end
  end.
Proof.
  unfold batchInsert, statement.
  destruct (snapshot k w); [ | reflexivity].
  destruct (outage (length (log w))); [reflexivity | ].
  destruct (insert_rows d rows); reflexivity.
Qed.

Lemma whereIn_delete_run (k : Knex) (keys : list (Z * Z)) (w : World) :
  whereIn_delete k keys w =
  match snapshot k w with
  | None => (Err TransactionComplete, w)
  | Some d =>
      let w1 := record (DeleteWhereIn k GROUP_USER keys) w in
      if outage (length (log w)) then (Err ConnectivityFailure, w1)
      else
        (Ok tt,
         publish k
           (with_group_user
              (filter (fun r => negb (key_in (key r) keys)) (group_user d))
              d)
           w1)
  end.
Proof.
  unfold whereIn_delete, statement.
  destruct (snapshot k w); [ | reflexivity].
  destruct (outage (length (log w))); reflexivity.
Qed.

(** Every way a call of [updateGroupUsers] can go, statement by statement. *)
Lemma updateGroupUsers_run (groupId : Z) (newUsers : list IGroupUserModel.t)
    (deletableUsers : list IGroupUser.t) (userName : string) (w : World) :
  let rows := membership_rows groupId newUsers userName in
  let keys := removal_keys deletableUsers in
  let ins := BatchInsert Trx GROUP_USER rows in
  let del := DeleteWhereIn Trx GROUP_USER keys in
  let n := length (log w) in
  updateGroupUsers groupId newUsers deletableUsers userName w =
  if outage n
  then (Err ConnectivityFailure, settled (committed w) [BEGIN] w)
  else if outage (S n)
  then (Err ConnectivityFailure,
        settled (committed w) [BEGIN; ins; ROLLBACK] w)
  else
    match insert_rows (committed w) rows with
    | Err e => (Err e, settled (committed w) [BEGIN; ins; ROLLBACK] w)
    | Ok d1 =>
        if outage (S (S n))
        then (Err ConnectivityFailure,
              settled (committed w) [BEGIN; ins; del; ROLLBACK] w)
        else if outage (S (S (S n)))
        then (Err ConnectivityFailure,
              settled (committed w) [BEGIN; ins; del; COMMIT] w)
        else
          (Ok tt,
           settled
             (with_group_user
                (filter (fun r => negb (key_in (key r) keys))
                   (group_user d1))
                d1)
             [BEGIN; ins; del; COMMIT] w)
    end.
Proof.
  intros rows keys ins del n. subst n.
  unfold updateGroupUsers, transaction, bind, addNewUsersToGroup,
    deleteOldUsersFromGroup.
  fold (membership_rows groupId newUsers userName).
  fold (removal_keys deletableUsers).
  fold rows keys. simpl or_db.
  destruct (outage (length (log w))) eqn:O0; [reflexivity | ].
  rewrite batchInsert_run. simpl snapshot. cbv zeta.
  simpl log. rewrite !length_app. simpl length. rewrite !Nat.add_1_r.
  destruct (outage (S (length (log w)))) eqn:O1.
  { unfold settled, record, with_inflight; simpl.
    rewrite <- !app_assoc. reflexivity. }
  destruct (insert_rows (committed w) rows) as [d1 | e] eqn:I.
  2:{ unfold settled, record, with_inflight; simpl.
      rewrite <- !app_assoc. reflexivity. }
  rewrite whereIn_delete_run. simpl snapshot. cbv zeta.
  simpl log. rewrite !length_app. simpl length. rewrite !Nat.add_1_r.
  destruct (outage (S (S (length (log w))))) eqn:O2.
  { unfold settled, record, with_inflight; simpl.
    rewrite <- !app_assoc. reflexivity. }
  simpl log. rewrite !length_app. simpl length. rewrite !Nat.add_1_r.
  destruct (outage (S (S (S (length (log w)))))) eqn:O3.
  { unfold settled, record, with_inflight; simpl.
    rewrite <- !app_assoc. reflexivity. }
  unfold settled, record, with_inflight, with_committed; simpl.
  rewrite <- !app_assoc. reflexivity.
Qed.

Lemma updateGroupUsers_ok (groupId : Z) (newUsers : list IGroupUserModel.t)
    (deletableUsers : list IGroupUser.t) (userName : string)
    (w w' : World) (u : unit) :
  updateGroupUsers groupId newUsers deletableUsers userName w = (Ok u, w') ->
  let rows := membership_rows groupId newUsers userName in
  let keys := removal_keys deletableUsers in
  insert_rows (committed w) rows
  = Ok (with_group_user (group_user (committed w) ++ rows) (committed w))
  /\ w' = settled
            (with_group_user
               (filter (fun r => negb (key_in (key r) keys))
                  (group_user (committed w) ++ rows))
               (committed w))
            [BEGIN; BatchInsert Trx GROUP_USER rows;
             DeleteWhereIn Trx GROUP_USER keys; COMMIT] w.
Proof.
  intros H rows keys. rewrite updateGroupUsers_run in H. cbv zeta in H.
  fold rows keys in H.
  destruct (outage (length (log w))); [discriminate H | ].
  destruct (outage (S (length (log w)))); [discriminate H | ].
  destruct (insert_rows (committed w) rows) as [d1 | e] eqn:I;
    [ | discriminate H].
  destruct (outage (S (S (length (log w))))); [discriminate H | ].
  destruct (outage (S (S (S (length (log w)))))); [discriminate H | ].
  apply insert_rows_ok in I. subst d1.
  inversion H; subst. split; reflexivity.
Qed.

Lemma updateGroupUsers_err (groupId : Z) (newUsers : list IGroupUserModel.t)
    (deletableUsers : list IGroupUser.t) (userName : string)
    (w w' : World) (e : Error) :
  updateGroupUsers groupId newUsers deletableUsers userName w = (Err e, w') ->
  exists sent,
    w' = settled (committed w) sent w
    /\ one_transaction
         (BatchInsert Trx GROUP_USER
            (membership_rows groupId newUsers userName))
         (DeleteWhereIn Trx GROUP_USER (removal_keys deletableUsers))
         sent.
Proof.
  intros H. rewrite updateGroupUsers_run in H. cbv zeta in H.
  unfold one_transaction.
  repeat
    match type of H with
    | (if ?c then _ else _) = _ => destruct c
    | match ?c with Ok _ => _ | Err _ => _ end = _ => destruct c
    end;
    inversion H; subst; eexists; (split; [reflexivity | ]); tauto.
Qed.

(** A failed call fails for storage's reasons: a refused row or a lost
    statement. *)
Lemma updateGroupUsers_rejections (groupId : Z)
    (newUsers : list IGroupUserModel.t) (deletableUsers : list IGroupUser.t)
    (userName : string) (w w' : World) (e : Error) :
  updateGroupUsers groupId newUsers deletableUsers userName w = (Err e, w') ->
  e = ConstraintViolation \/ e = ConnectivityFailure.
Proof.
  intros H. rewrite updateGroupUsers_run in H. cbv zeta in H.
  destruct (outage (length (log w))); [inversion H; auto | ].
  destruct (outage (S (length (log w)))); [inversion H; auto | ].
  destruct (insert_rows _ _) as [d1 | e1] eqn:I.
  - destruct (outage (S (S (length (log w))))); [inversion H; auto | ].
    destruct (outage (S (S (S (length (log w))))));
      [inversion H; auto | discriminate H].
  - apply insert_rows_err in I. inversion H; subst. left. reflexivity.
Qed.

Lemma in_membership_rows (groupId : Z) (users : list IGroupUserModel.t)
    (userName : string) (r : GroupUserRow.t) :
  In r (membership_rows groupId users userName) ->
  In (key r) (added_keys groupId users).
Proof.
  unfold membership_rows, added_keys. rewrite !in_map_iff.
  intros (u & <- & Hu). exists u. split; [reflexivity | exact Hu].
Qed.

Lemma filter_none {A} (f : A -> bool) (l : list A) :
  (forall x, In x l -> f x = false) -> filter f l = [].
Proof.
  induction l as [ | x l IH]; intros H; simpl; [reflexivity | ].
  rewrite (H x (or_introl eq_refl)). apply IH. intros y Hy. apply H.
  right. exact Hy.
Qed.

Lemma filter_twice {A} (f g : A -> bool) (l : list A) :
  (forall x, f x = true -> g x = true) ->
  filter f (filter g l) = filter f l.
Proof.
  intros H. induction l as [ | x l IH]; simpl; [reflexivity | ].
  destruct (g x) eqn:G; simpl.
  - rewrite IH. reflexivity.
  - destruct (f x) eqn:F; [ | exact IH].
    rewrite (H x F) in G. discriminate G.
Qed.

(** ** Reconciling the members of a group *)

(** C1: [updateGroupUsers] is all or nothing.  The batch insert and the set
    delete are sent on the handle of one transaction.  The call rejects as
    soon as one of its steps fails: one of its four statements ([BEGIN], the
    insert, the delete, [COMMIT]) is lost, or storage refuses the rows (then
    with storage's error).  A call that rejects leaves committed exactly
    what was committed before it: no added row stays and no removal shows.
    A call that resolves has done both steps: what is committed is the old
    memberships followed by the added rows, less the removed pairs. *)
Theorem updateGroupUsers_atomic (groupId : Z)
    (newUsers : list IGroupUserModel.t) (deletableUsers : list IGroupUser.t)
    (userName : string) (w : World) :
  let rows := membership_rows groupId newUsers userName in
  let keys := removal_keys deletableUsers in
  let ins := BatchInsert Trx GROUP_USER rows in
  let del := DeleteWhereIn Trx GROUP_USER keys in
  let n := length (log w) in
  let out := updateGroupUsers groupId newUsers deletableUsers userName w in
  (outage n = true
   \/ outage (S n) = true
   \/ outage (S (S n)) = true
   \/ outage (S (S (S n))) = true
   \/ (exists e, insert_rows (committed w) rows = Err e) ->
   exists e, fst out = Err e)
  /\ (forall e,
        outage n = false ->
        outage (S n) = false ->
        insert_rows (committed w) rows = Err e ->
        fst out = Err e)
  /\ (forall e,
        fst out = Err e ->
        committed (snd out) = committed w
        /\ inflight (snd out) = inflight w
        /\ exists sent,
             log (snd out) = log w ++ sent /\ one_transaction ins del sent)
  /\ (fst out = Ok tt ->
      insert_rows (committed w) rows
      = Ok (with_group_user (group_user (committed w) ++ rows) (committed w))
      /\ committed (snd out)
         = with_group_user
             (filter (fun r => negb (key_in (key r) keys))
                (group_user (committed w) ++ rows))
             (committed w)
      /\ inflight (snd out) = inflight w
      /\ log (snd out) = log w ++ [BEGIN; ins; del; COMMIT]).
Proof.
  intros rows keys ins del n out. subst out.
  rewrite updateGroupUsers_run. cbv zeta.
  fold rows keys. fold ins del. fold n.
  assert (Hrej : forall (e : Error) (sent : list Statement),
             one_transaction ins del sent ->
             let out := (@Err unit e, settled (committed w) sent w) in
             (exists e', fst out = Err e')
             /\ (forall e',
                   fst out = Err e' ->
                   committed (snd out) = committed w
                   /\ inflight (snd out) = inflight w
                   /\ exists sent',
                        log (snd out) = log w ++ sent'
                        /\ one_transaction ins del sent')
             /\ (fst out = Ok tt -> False)).
  { intros e sent Hs. simpl. split; [exists e; reflexivity | ]. split.
    - intros e' _. split; [reflexivity | split; [reflexivity | ]].
      exists sent. split; [reflexivity | exact Hs].
    - discriminate. }
  destruct (outage n) eqn:O0.
  { destruct (Hrej ConnectivityFailure [BEGIN]) as (R1 & R2 & R3);
      [unfold one_transaction; tauto | ].
    split; [intros _; exact R1 | ].
    split; [intros e X; discriminate X | ].
    split; [exact R2 | intros X; destruct (R3 X)]. }
  destruct (outage (S n)) eqn:O1.
  { destruct (Hrej ConnectivityFailure [BEGIN; ins; ROLLBACK])
      as (R1 & R2 & R3); [unfold one_transaction; tauto | ].
    split; [intros _; exact R1 | ].
    split; [intros e _ X; discriminate X | ].
    split; [exact R2 | intros X; destruct (R3 X)]. }
  destruct (insert_rows (committed w) rows) as [d1 | e1] eqn:I.
  2:{ destruct (Hrej e1 [BEGIN; ins; ROLLBACK]) as (R1 & R2 & R3);
        [unfold one_transaction; tauto | ].
      split; [intros _; exact R1 | ].
      split; [intros e _ _ X; injection X as ->; reflexivity | ].
      split; [exact R2 | intros X; destruct (R3 X)]. }
  destruct (outage (S (S n))) eqn:O2.
  { destruct (Hrej ConnectivityFailure [BEGIN; ins; del; ROLLBACK])
      as (R1 & R2 & R3); [unfold one_transaction; tauto | ].
    split; [intros _; exact R1 | ].
    split; [intros e _ _ X; discriminate X | ].
    split; [exact R2 | intros X; destruct (R3 X)]. }
  destruct (outage (S (S (S n)))) eqn:O3.
  { destruct (Hrej ConnectivityFailure [BEGIN; ins; del; COMMIT])
      as (R1 & R2 & R3); [unfold one_transaction; tauto | ].
    split; [intros _; exact R1 | ].
    split; [intros e _ _ X; discriminate X | ].
    split; [exact R2 | intros X; destruct (R3 X)]. }
  apply insert_rows_ok in I. subst d1. simpl.
  split.
  { intros [X | [X | [X | [X | [e X]]]]]; discriminate X. }
  split; [intros e _ _ X; discriminate X | ].
  split; [intros e X; discriminate X | ].
  intros _. repeat split.
Qed.

(** C2: when the added and the removed pairs are disjoint and the call
    succeeds, every added pair is a row of [group_user] with the type asked
    for, and no row of [group_user] has a removed pair. *)
Theorem updateGroupUsers_members (groupId : Z)
    (newUsers : list IGroupUserModel.t) (deletableUsers : list IGroupUser.t)
    (userName : string) (w w' : World) :
  (forall u r,
     In u newUsers -> In r deletableUsers ->
     (groupId, IUser.id (IGroupUserModel.user u))
     <> (IGroupUser.groupId r, IGroupUser.userId r)) ->
  updateGroupUsers groupId newUsers deletableUsers userName w = (Ok tt, w') ->
  (forall u,
     In u newUsers ->
     In (GroupUserRow.mk groupId (IUser.id (IGroupUserModel.user u))
           (IGroupUserModel.type u) userName)
        (group_user (committed w')))
  /\ (forall r row,
        In r deletableUsers ->
        In row (group_user (committed w')) ->
        key row <> (IGroupUser.groupId r, IGroupUser.userId r)).
Proof.
  intros Hdis H. apply updateGroupUsers_ok in H. cbv zeta in H.
  destruct H as [_ ->]. simpl. split.
  - intros u Hu. apply filter_In. split.
    + apply in_or_app. right. unfold membership_rows.
      apply in_map_iff. exists u. split; [reflexivity | exact Hu].
    + apply negb_true_iff, key_in_false. unfold removal_keys.
      rewrite in_map_iff. intros (r & E & Hr).
      apply (Hdis u r Hu Hr). symmetry. exact E.
  - intros r row Hr Hrow E. apply filter_In in Hrow.
    destruct Hrow as [_ Hk]. apply negb_true_iff, key_in_false in Hk.
    apply Hk. unfold removal_keys. apply in_map_iff. exists r.
    split; [symmetry; exact E | exact Hr].
Qed.


(** C3, amended: where memberships are unique, once a call has succeeded
    with an add set of which some pair was not among its removals, a second
    call with the same add set (whatever it removes, whoever the actor), on
    a gateway that loses no statement, sends the insert of the same pairs
    again, is rejected with a constraint violation and rolled back, and
    changes nothing. *)
Theorem updateGroupUsers_twice (groupId : Z)
    (newUsers : list IGroupUserModel.t)
    (deletableUsers deletableUsers' : list IGroupUser.t)
    (userName userName' : string) (w w1 : World) :
  membership_unique schema = true ->
  (exists u,
     In u newUsers
     /\ ~ In (groupId, IUser.id (IGroupUserModel.user u))
          (removal_keys deletableUsers)) ->
  updateGroupUsers groupId newUsers deletableUsers userName w = (Ok tt, w1) ->
  online w1 ->
  exists w2,
    updateGroupUsers groupId newUsers deletableUsers' userName' w1
    = (Err ConstraintViolation, w2)
    /\ committed w2 = committed w1
    /\ log w2
       = log w1
         ++ [BEGIN;
             BatchInsert Trx GROUP_USER
               (membership_rows groupId newUsers userName');
             ROLLBACK].
Proof.
  intros U (u & Hu & Hkeep) H On.
  apply updateGroupUsers_ok in H. cbv zeta in H. destruct H as [_ Hw1].
  rewrite updateGroupUsers_run. cbv zeta.
  rewrite (online_next On).
  rewrite (On (S (length (log w1)))) by lia.
  set (row' := GroupUserRow.mk groupId (IUser.id (IGroupUserModel.user u))
                 (IGroupUserModel.type u) userName').
  assert (Hdup : insert_rows (committed w1)
                   (membership_rows groupId newUsers userName')
                 = Err ConstraintViolation).
  { apply (@insert_rows_duplicate _ (committed w1) row' U).
    - unfold membership_rows. apply in_map_iff. exists u.
      split; [reflexivity | exact Hu].
    - rewrite Hw1. simpl. apply in_map_iff.
      exists (GroupUserRow.mk groupId (IUser.id (IGroupUserModel.user u))
                (IGroupUserModel.type u) userName).
      split; [reflexivity | ].
      apply filter_In. split.
      + apply in_or_app. right. unfold membership_rows.
        apply in_map_iff. exists u. split; [reflexivity | exact Hu].
      + apply negb_true_iff, key_in_false. exact Hkeep. }
  rewrite Hdup. eexists. split; [reflexivity | split; reflexivity].
Qed.

(** C8: whatever the outcome, [updateGroupUsers] sends nothing but the
    statements of its one transaction (the batch insert into and the set
    delete from [group_user]), and leaves alone the [groups] table, the
    [users] table, the sequence, any transaction around it, and every
    membership whose pair is neither added nor removed. *)
Theorem updateGroupUsers_frame (groupId : Z)
    (newUsers : list IGroupUserModel.t) (deletableUsers : list IGroupUser.t)
    (userName : string) (w : World) :
  let w' :=
    snd (updateGroupUsers groupId newUsers deletableUsers userName w) in
  groups (committed w') = groups (committed w)
  /\ users (committed w') = users (committed w)
  /\ groups_id_seq w' = groups_id_seq w
  /\ inflight w' = inflight w
  /\ filter (untouched groupId newUsers deletableUsers)
       (group_user (committed w'))
     = filter (untouched groupId newUsers deletableUsers)
         (group_user (committed w))
  /\ exists sent,
       log w' = log w ++ sent
       /\ one_transaction
            (BatchInsert Trx GROUP_USER
               (membership_rows groupId newUsers userName))
            (DeleteWhereIn Trx GROUP_USER (removal_keys deletableUsers))
            sent.
Proof.
  intros w'.
  destruct (updateGroupUsers groupId newUsers deletableUsers userName w)
    as [[[] | e] w1] eqn:H; subst w'; simpl snd.
  - apply updateGroupUsers_ok in H. cbv zeta in H. destruct H as [_ ->].
    simpl. repeat split.
    + rewrite filter_twice.
      * rewrite filter_app.
        rewrite (filter_none
                   (untouched groupId newUsers deletableUsers)
                   (membership_rows groupId newUsers userName)).
        -- apply app_nil_r.
        -- intros r Hr. apply in_membership_rows in Hr.
           unfold untouched.
           rewrite (proj2 (key_in_In _ _) Hr). reflexivity.
      * intros r Hr. unfold untouched in Hr.
        apply andb_true_iff in Hr. apply Hr.
    + eexists. split; [reflexivity | ]. unfold one_transaction. tauto.
  - apply updateGroupUsers_err in H. destruct H as (sent & -> & Hsent).
    simpl. repeat split.
    exists sent. split; [reflexivity | exact Hsent].
Qed.


(** ** The two batched statements *)

Lemma membership_rows_stamped (groupId : Z)
    (users : list IGroupUserModel.t) (userName : string) :
  Forall2 (stamped groupId userName) users
    (membership_rows groupId users userName).
Proof.
  induction users as [ | u users IH]; simpl; constructor.
  - unfold stamped; simpl. repeat split.
  - exact IH.
Qed.

Lemma snapshot_publish (k : Knex) (d : Db) (w : World) :
  snapshot k (publish k d w) = Some d.
Proof. destruct k; reflexivity. Qed.

Lemma snapshot_record (k : Knex) (s : Statement) (w : World) :
  snapshot k (record s w) = snapshot k w.
Proof. destruct k; reflexivity. Qed.

Lemma log_publish (k : Knex) (d : Db) (w : World) :
  log (publish k d w) = log w.
Proof. destruct k; reflexivity. Qed.

Lemma insert_rows_free (rows : list GroupUserRow.t) :
  membership_unique schema = false ->
  membership_refs schema = false ->
  forall d,
    insert_rows d rows = Ok (with_group_user (group_user d ++ rows) d).
Proof.
  intros U F. induction rows as [ | r rest IH]; intros d; simpl.
  - rewrite app_nil_r. destruct d; reflexivity.
  - unfold refused. rewrite U, F. simpl. rewrite IH.
    unfold with_group_user; simpl. rewrite <- app_assoc. reflexivity.
Qed.

(** C6: on a usable handle [addNewUsersToGroup] sends one statement, a batch
    insert into [group_user], whatever the number of entries; the batch has
    one row per entry of [users], in order, each with the target group, the
    entry's user and type, and [userName] as creator.  When the call
    resolves the table is the old one followed by these rows, and when it
    rejects the table is as it was. *)
Theorem addNewUsersToGroup_rows (groupId : Z)
    (users : list IGroupUserModel.t) (userName : string)
    (transaction : option Knex) (w : World) (d : Db) :
  snapshot (or_db transaction) w = Some d ->
  let out := addNewUsersToGroup groupId users userName transaction w in
  exists rows,
    Forall2 (stamped groupId userName) users rows
    /\ log (snd out)
       = log w ++ [BatchInsert (or_db transaction) GROUP_USER rows]
    /\ (fst out = Ok tt ->
        snapshot (or_db transaction) (snd out)
        = Some (with_group_user (group_user d ++ rows) d))
    /\ (fst out <> Ok tt ->
        snapshot (or_db transaction) (snd out) = Some d)
    /\ (outage (length (log w)) = false ->
        membership_unique schema = false ->
        membership_refs schema = false ->
        fst out = Ok tt).
Proof.
  intros Hs out. exists (membership_rows groupId users userName).
  split; [apply membership_rows_stamped | ].
  subst out. unfold addNewUsersToGroup.
  fold (membership_rows groupId users userName).
  rewrite batchInsert_run, Hs. cbv zeta.
  destruct (outage (length (log w))) eqn:O; simpl.
  - repeat split; try discriminate.
    intros _. rewrite snapshot_record. exact Hs.
  - destruct (insert_rows d (membership_rows groupId users userName))
      as [d' | e] eqn:I; simpl.
    + apply insert_rows_ok in I. subst d'.
      rewrite log_publish, snapshot_publish. simpl.
      repeat split. intros X. destruct X. reflexivity.
    + repeat split; try discriminate.
      * intros _. rewrite snapshot_record. exact Hs.
      * intros _ U F. rewrite (insert_rows_free _ U F) in I.
        discriminate I.
Qed.

(** C7: on a usable handle that reaches storage,
    [deleteOldUsersFromGroup] sends one statement, a set delete on
    [group_user], after which the rows left are exactly those whose
    (group, user) pair is not listed; no target group enters into it, and
    so after a successful [updateGroupUsers] no row has a listed pair,
    whichever group the pair names. *)
Theorem deleteOldUsersFromGroup_set (deletableUsers : list IGroupUser.t) :
  (forall (transaction : option Knex) (w : World) (d : Db),
     snapshot (or_db transaction) w = Some d ->
     outage (length (log w)) = false ->
     let out := deleteOldUsersFromGroup deletableUsers transaction w in
     fst out = Ok tt
     /\ log (snd out)
        = log w
          ++ [DeleteWhereIn (or_db transaction) GROUP_USER
                (removal_keys deletableUsers)]
     /\ exists d',
          snapshot (or_db transaction) (snd out) = Some d'
          /\ groups d' = groups d
          /\ users d' = users d
          /\ forall row,
               In row (group_user d') <->
               In row (group_user d)
               /\ ~ In (key row) (removal_keys deletableUsers))
  /\ (forall (groupId : Z) (newUsers : list IGroupUserModel.t)
            (userName : string) (w w' : World) (r : IGroupUser.t)
            (row : GroupUserRow.t),
        updateGroupUsers groupId newUsers deletableUsers userName w
        = (Ok tt, w') ->
        In r deletableUsers ->
        In row (group_user (committed w')) ->
        key row <> (IGroupUser.groupId r, IGroupUser.userId r)).
Proof.
  split.
  - intros transaction w d Hs O out. subst out.
    unfold deleteOldUsersFromGroup. fold (removal_keys deletableUsers).
    rewrite whereIn_delete_run, Hs. cbv zeta. rewrite O. simpl.
    rewrite log_publish, snapshot_publish. simpl.
    repeat split. eexists. split; [reflexivity | ]. simpl.
    repeat split.
    + apply filter_In in H. apply H.
    + apply filter_In in H. destruct H as [_ H].
      apply negb_true_iff, key_in_false in H. exact H.
    + intros [Hin Hk]. apply filter_In. split; [exact Hin | ].
      apply negb_true_iff, key_in_false. exact Hk.
  - intros groupId newUsers userName w w' r row H Hr Hrow E.
    apply updateGroupUsers_ok in H. cbv zeta in H. destruct H as [_ ->].
    simpl in Hrow. apply filter_In in Hrow. destruct Hrow as [_ Hk].
    apply negb_true_iff, key_in_false in Hk. apply Hk.
    unfold removal_keys. apply in_map_iff. exists r.
    split; [symmetry; exact E | exact Hr].
Qed.


(** ** Single groups *)

Lemma get_run (id : Z) (w : World) :
  get id w =
  let w1 := record (Select Pool GROUPS) w in
  if outage (length (log w)) then (Err ConnectivityFailure, w1)
  else
    (rowToGroup
       (find (fun r => Z.eqb (GroupRow.id r) id) (groups (committed w))),
     w1).
Proof.
  unfold get, bind, where_id_first, statement; simpl.
  destruct (outage (length (log w))); reflexivity.
Qed.

Lemma exists_run (id : Z) (w : World) :
  exists_ id w =
  let w1 := record (Select Pool GROUPS) w in
  if outage (length (log w)) then (Err ConnectivityFailure, w1)
  else (Ok (has_group id (committed w)), w1).
Proof.
  unfold exists_, raw_exists_id, statement; simpl.
  destruct (outage (length (log w))); reflexivity.
Qed.

Lemma create_run (group : IStoreGroup.t) (w : World) :
  create group w =
  let s := InsertReturning Pool GROUPS (groupToRow group) in
  let i := (groups_id_seq w + 1)%Z in
  let r := GroupRow.mk i (IStoreGroup.name group)
             (IStoreGroup.description group)
             (Z.of_nat (length (log w ++ [s]))) None in
  if outage (length (log w)) then (Err ConnectivityFailure, record s w)
  else if has_group i (committed w)
          || (group_name_unique schema
              && has_name (IStoreGroup.name group) (groups (committed w)))
  then (Err ConstraintViolation, with_seq i (record s w))
  else
    (rowToGroup (Some r),
     mkWorld (with_groups (groups (committed w) ++ [r]) (committed w))
       (inflight w) i (log w ++ [s])).
Proof.
  unfold create, bind, insert_returning, statement, bind, nextval, now;
    simpl.
  destruct (outage (length (log w))); [reflexivity | ].
  destruct (has_group (groups_id_seq w + 1) (committed w)
            || group_name_unique schema
               && has_name (IStoreGroup.name group) (groups (committed w)));
    reflexivity.
Qed.

Lemma update_run (group : IGroupModel.t) (w : World) :
  update group w =
  let i := IGroupModel.id group in
  let row := GroupColumns.mk (IGroupModel.name group)
               (IGroupModel.description group) in
  let s := UpdateReturning Pool GROUPS i row in
  let rows := map (rename i row) (groups (committed w)) in
  if outage (length (log w)) then (Err ConnectivityFailure, record s w)
  else if group_name_unique schema && has_group i (committed w)
          && Nat.ltb 1 (holders (IGroupModel.name group) rows)
  then (Err ConstraintViolation, record s w)
  else
    (rowToGroup
       (nth_error (filter (fun r => Z.eqb (GroupRow.id r) i) rows) 0),
     mkWorld (with_groups rows (committed w)) (inflight w)
       (groups_id_seq w) (log w ++ [s])).
Proof.
  unfold update, bind, where_id_update_returning, statement; simpl.
  destruct (outage (length (log w))); [reflexivity | ].
  destruct (group_name_unique schema
            && has_group (IGroupModel.id group) (committed w)
            && Nat.ltb 1 _);
    reflexivity.
Qed.

(** C4: when no row of [groups] has the identifier, [get] never resolves,
    and on a gateway that reaches storage it rejects with [NotFoundError]
    while [exists] resolves to false. *)
Theorem get_absent (id : Z) (w : World) :
  (forall r, In r (groups (committed w)) -> GroupRow.id r <> id) ->
  (forall g w', get id w <> (Ok g, w'))
  /\ (online w ->
      fst (get id w) = Err NotFoundError /\ fst (exists_ id w) = Ok false).
Proof.
  intros Habs. split.
  - intros g w' H. rewrite get_run in H. cbv zeta in H.
    rewrite (find_absent _ Habs) in H.
    destruct (outage (length (log w))); discriminate H.
  - intros On. rewrite get_run, exists_run. cbv zeta.
    rewrite (online_next On), (find_absent _ Habs).
    rewrite (proj2 (has_group_false _ _) Habs). split; reflexivity.
Qed.

(** C5: when [create] resolves to a group, [get] of that group's identifier
    (on a gateway that reaches storage) resolves to the same group, whose
    name and description are those that were passed to [create]. *)
Theorem create_get (group : IStoreGroup.t) (w w1 : World) (g : Group.t) :
  create group w = (Ok g, w1) ->
  online w1 ->
  fst (get (Group.id g) w1) = Ok g
  /\ Group.name g = IStoreGroup.name group
  /\ Group.description g = IStoreGroup.description group.
Proof.
  intros H On. rewrite create_run in H. cbv zeta in H.
  destruct (outage (length (log w))); [discriminate H | ].
  destruct (has_group (groups_id_seq w + 1) (committed w)) eqn:Hid;
    [discriminate H | ].
  simpl orb in H.
  destruct (group_name_unique schema
            && has_name (IStoreGroup.name group) (groups (committed w)));
    [discriminate H | ].
  simpl in H. inversion H; subst g. subst w1. clear H.
  rewrite get_run. cbv zeta. rewrite (online_next On). simpl.
  rewrite find_appended.
  - repeat split.
  - apply has_group_false. exact Hid.
  - reflexivity.
Qed.

(** C9: [create] writes the name and the description it is given and
    nothing else: a call does the same whatever creator the argument
    carries, and the row it adds (like the group it returns) has no
    creator. *)
Theorem create_discards_creator (group : IStoreGroup.t)
    (creator : option string) (w : World) :
  create
    (IStoreGroup.mk (IStoreGroup.name group) (IStoreGroup.description group)
       creator)
    w
  = create group w
  /\ forall g w',
       create group w = (Ok g, w') ->
       Group.createdBy g = None
       /\ groups (committed w')
          = groups (committed w)
            ++ [GroupRow.mk (Group.id g) (IStoreGroup.name group)
                  (IStoreGroup.description group) (Group.createdAt g) None].
Proof.
  split; [reflexivity | ].
  intros g w' H. rewrite create_run in H. cbv zeta in H.
  destruct (outage (length (log w))); [discriminate H | ].
  destruct (has_group (groups_id_seq w + 1) (committed w)
            || group_name_unique schema
               && has_name (IStoreGroup.name group) (groups (committed w)));
    [discriminate H | ].
  simpl in H. inversion H; subst. simpl. split; reflexivity.
Qed.


Lemma rename_id (i : Z) (row : GroupColumns.t) (r : GroupRow.t) :
  GroupRow.id (rename i row r) = GroupRow.id r.
Proof. unfold rename. destruct (Z.eqb (GroupRow.id r) i); reflexivity. Qed.








(** ** Reading groups and memberships *)

Lemma find_keyed (rows : list GroupRow.t) (r : GroupRow.t) :
  NoDup (map GroupRow.id rows) ->
  In r rows ->
  find (fun x => Z.eqb (GroupRow.id x) (GroupRow.id r)) rows = Some r.
Proof.
  induction rows as [ | x rows IH]; intros N Hin; [destruct Hin | ].
  inversion N as [ | i l Hnot N']; subst. simpl.
  destruct Hin as [-> | Hin].
  - rewrite Z.eqb_refl. reflexivity.
  - destruct (Z.eqb (GroupRow.id x) (GroupRow.id r)) eqn:E.
    + apply Z.eqb_eq in E. destruct Hnot. rewrite E.
      apply in_map. exact Hin.
    + apply IH; assumption.
Qed.

Lemma has_group_find (i : Z) (d : Db) :
  has_group i d = true <->
  exists r, find (fun x => Z.eqb (GroupRow.id x) i) (groups d) = Some r.
Proof.
  unfold has_group. rewrite existsb_exists. split.
  - intros (r & Hr & E).
    destruct (find (fun x => Z.eqb (GroupRow.id x) i) (groups d))
      as [r' | ] eqn:F; [exists r'; reflexivity | ].
    rewrite (find_none _ _ F r Hr) in E. discriminate E.
  - intros (r & F). apply find_some in F. exists r. exact F.
Qed.

Lemma existsWithName_run (name : string) (w : World) :
  existsWithName name w =
  let w1 := record (Select Pool GROUPS) w in
  if outage (length (log w)) then (Err ConnectivityFailure, w1)
  else (Ok (has_name name (groups (committed w))), w1).
Proof.
  unfold existsWithName, raw_exists_name, statement; simpl.
  destruct (outage (length (log w))); reflexivity.
Qed.

Lemma getAll_run (w : World) :
  getAll w =
  let w1 := record (Select Pool GROUPS) w in
  if outage (length (log w)) then (Err ConnectivityFailure, w1)
  else (map_result rowToGroup (map Some (groups (committed w))), w1).
Proof.
  unfold getAll, bind, select_groups, statement; simpl.
  destruct (outage (length (log w))); reflexivity.
Qed.

Lemma getAllUsersByGroups_run (groupIds : list Z) (w : World) :
  getAllUsersByGroups groupIds w =
  let w1 := record (Select Pool GROUP_USER) w in
  if outage (length (log w)) then (Err ConnectivityFailure, w1)
  else (map_result rowToGroupUser (join_users groupIds (committed w)), w1).
Proof.
  unfold getAllUsersByGroups, bind, select_join_users, statement; simpl.
  destruct (outage (length (log w))); reflexivity.
Qed.

Lemma only_sent_record (s : Statement) (w : World) :
  only_sent s w (record s w).
Proof. unfold only_sent. repeat split. Qed.

Lemma map_result_groups (rows : list GroupRow.t) :
  exists l,
    map_result rowToGroup (map Some rows) = Ok l
    /\ Forall2 (fun r g => rowToGroup (Some r) = Ok g) rows l.
Proof.
  induction rows as [ | r rows (l & E & F)]; simpl.
  - exists []. split; [reflexivity | constructor].
  - rewrite E. eexists. split; [reflexivity | ].
    constructor; [reflexivity | exact F].
Qed.

(** What [rows.map(rowToGroupUser)] gives on rows that are all there. *)
Lemma map_result_entries (rows : list (option GroupUserRow.t)) :
  (forall x, In x rows -> exists r, x = Some r) ->
  exists l,
    map_result rowToGroupUser rows = Ok l
    /\ forall e,
         In e l <->
         exists r,
           In (Some r) rows
           /\ e = IGroupUser.mk (GroupUserRow.user_id r)
                    (GroupUserRow.group_id r) (GroupUserRow.type r).
Proof.
  induction rows as [ | x rows IH]; intros Hall; simpl.
  - exists []. split; [reflexivity | ].
    intros e. split; [intros [] | intros (r & [] & _)].
  - destruct (Hall x (or_introl eq_refl)) as [r ->]. simpl.
    destruct IH as (l & E & Hl).
    { intros y Hy. apply Hall. right. exact Hy. }
    rewrite E. eexists. split; [reflexivity | ].
    intros e. simpl. rewrite Hl. split.
    + intros [<- | (r' & Hr' & ->)].
      * exists r. split; [left; reflexivity | reflexivity].
      * exists r'. split; [right; exact Hr' | reflexivity].
    + intros (r' & [Heq | Hr'] & ->).
      * inversion Heq; subst. left. reflexivity.
      * right. exists r'. split; [exact Hr' | reflexivity].
Qed.

Lemma has_user_In (i : Z) (d : Db) :
  has_user i d = true <-> exists u, In u (users d) /\ UserRow.id u = i.
Proof.
  unfold has_user. rewrite existsb_exists.
  split; intros (u & Hu & E); exists u; split; auto; apply Z.eqb_eq; auto.
Qed.

Lemma in_join_users (groupIds : list Z) (d : Db)
    (x : option GroupUserRow.t) :
  In x (join_users groupIds d) <->
  exists gu u,
    In gu (group_user d)
    /\ In (GroupUserRow.group_id gu) groupIds
    /\ In u (users d)
    /\ UserRow.id u = GroupUserRow.user_id gu
    /\ x = Some (GroupUserRow.mk (GroupUserRow.group_id gu) (UserRow.id u)
                   (GroupUserRow.type gu) (GroupUserRow.created_by gu)).
Proof.
  unfold join_users. rewrite in_flat_map. split.
  - intros (gu & Hgu & Hx).
    destruct (existsb (Z.eqb (GroupUserRow.group_id gu)) groupIds) eqn:E;
      [ | destruct Hx].
    apply in_map_iff in Hx. destruct Hx as (u & <- & Hu).
    apply filter_In in Hu. destruct Hu as [Hu Eu]. apply Z.eqb_eq in Eu.
    apply existsb_exists in E. destruct E as (g & Hg & Eg).
    apply Z.eqb_eq in Eg. subst g.
    exists gu, u. repeat split; assumption.
  - intros (gu & u & Hgu & Hg & Hu & Eu & ->).
    exists gu. split; [exact Hgu | ].
    assert (E : existsb (Z.eqb (GroupUserRow.group_id gu)) groupIds = true).
    { apply existsb_exists. exists (GroupUserRow.group_id gu).
      split; [exact Hg | apply Z.eqb_refl]. }
    rewrite E. apply in_map_iff. exists u. split; [reflexivity | ].
    apply filter_In. split; [exact Hu | apply Z.eqb_eq; exact Eu].
Qed.

(** The entries that [getAllUsersByGroups] resolves to. *)
Lemma getAllUsersByGroups_ok (groupIds : list Z) (w : World) :
  online w ->
  exists l,
    fst (getAllUsersByGroups groupIds w) = Ok l
    /\ forall e,
         In e l <->
         exists gu,
           In gu (group_user (committed w))
           /\ In (GroupUserRow.group_id gu) groupIds
           /\ has_user (GroupUserRow.user_id gu) (committed w) = true
           /\ e = IGroupUser.mk (GroupUserRow.user_id gu)
                    (GroupUserRow.group_id gu) (GroupUserRow.type gu).
Proof.
  intros On. rewrite getAllUsersByGroups_run. cbv zeta.
  rewrite (online_next On). simpl.
  destruct (@map_result_entries (join_users groupIds (committed w)))
    as (l & E & Hl).
  { intros x Hx. apply in_join_users in Hx.
    destruct Hx as (gu & u & _ & _ & _ & _ & ->). eexists. reflexivity. }
  exists l. split; [exact E | ].
  intros e. rewrite Hl. split.
  - intros (r & Hr & ->). apply in_join_users in Hr.
    destruct Hr as (gu & u & Hgu & Hg & Hu & Eu & Heq).
    inversion Heq; subst r. simpl. exists gu. rewrite Eu.
    repeat split; try assumption.
    apply has_user_In. exists u. split; assumption.
  - intros (gu & Hgu & Hg & Hu & ->).
    apply has_user_In in Hu. destruct Hu as (u & Hu & Eu).
    exists (GroupUserRow.mk (GroupUserRow.group_id gu) (UserRow.id u)
              (GroupUserRow.type gu) (GroupUserRow.created_by gu)).
    split.
    + apply in_join_users. exists gu, u. repeat split; assumption.
    + simpl. rewrite Eu. reflexivity.
Qed.

(** X1: where identifiers are keys of [groups], [get] of the identifier of
    a stored row resolves (on a gateway that reaches storage) to the group
    with exactly that row's five fields. *)
Theorem get_present (r : GroupRow.t) (w : World) :
  NoDup (map GroupRow.id (groups (committed w))) ->
  In r (groups (committed w)) ->
  online w ->
  fst (get (GroupRow.id r) w)
  = Ok (Group.mk (GroupRow.id r) (GroupRow.name r) (GroupRow.description r)
          (GroupRow.created_at r) (GroupRow.created_by r)).
Proof.
  intros N Hin On. rewrite get_run. cbv zeta. rewrite (online_next On).
  rewrite (@find_keyed _ _ N Hin). reflexivity.
Qed.

(** X2: on a gateway that reaches storage [exists] and [get] agree:
    [exists] resolves to true exactly when [get] resolves to a group, and to
    false exactly when [get] rejects with [NotFoundError]. *)
Theorem exists_iff_get (id : Z) (w : World) :
  online w ->
  (fst (exists_ id w) = Ok true <-> exists g, fst (get id w) = Ok g)
  /\ (fst (exists_ id w) = Ok false <->
      fst (get id w) = Err NotFoundError).
Proof.
  intros On. rewrite exists_run, get_run. cbv zeta.
  rewrite (online_next On). simpl.
  pose proof (has_group_find id (committed w)) as Hf.
  destruct (find (fun r => Z.eqb (GroupRow.id r) id) (groups (committed w)))
    as [r | ] eqn:F; simpl.
  - rewrite (proj2 Hf (ex_intro _ r eq_refl)). split; split.
    + intros _. eexists. reflexivity.
    + reflexivity.
    + discriminate.
    + discriminate.
  - destruct (has_group id (committed w)).
    + destruct (proj1 Hf eq_refl) as [r Hr]. discriminate Hr.
    + split; split; try discriminate; try reflexivity.
      intros [g Hg]. discriminate Hg.
Qed.

(** X3: the five reading functions never write.  Whatever the outcome, each
    sends one select on the pool and leaves the committed tables, any open
    transaction and the sequence as they were. *)
Theorem reads_never_write (id : Z) (name : string) (groupIds : list Z)
    (w : World) :
  only_sent (Select Pool GROUPS) w (snd (get id w))
  /\ only_sent (Select Pool GROUPS) w (snd (exists_ id w))
  /\ only_sent (Select Pool GROUPS) w (snd (existsWithName name w))
  /\ only_sent (Select Pool GROUPS) w (snd (getAll w))
  /\ only_sent (Select Pool GROUP_USER) w
       (snd (getAllUsersByGroups groupIds w)).
Proof.
  rewrite get_run, exists_run, existsWithName_run, getAll_run,
    getAllUsersByGroups_run.
  cbv zeta.
  destruct (outage (length (log w))); simpl;
    repeat split; apply only_sent_record.
Qed.

(** X4: [getAll] never rejects with [NotFoundError]; on a gateway that
    reaches storage it resolves to one group per row of [groups], in the
    order of the rows, each the mapping of its row (an empty table gives the
    empty list). *)
Theorem getAll_rows (w : World) :
  (forall w', getAll w <> (Err NotFoundError, w'))
  /\ (online w ->
      exists l,
        fst (getAll w) = Ok l
        /\ Forall2 (fun r g => rowToGroup (Some r) = Ok g)
             (groups (committed w)) l).
Proof.
  rewrite getAll_run. cbv zeta.
  destruct (map_result_groups (groups (committed w))) as (l & E & F).
  rewrite E. split.
  - intros w' H. destruct (outage (length (log w))); discriminate H.
  - intros On. rewrite (online_next On). exists l.
    split; [reflexivity | exact F].
Qed.

(** X5: on a gateway that reaches storage [getAllUsersByGroups] resolves to
    the memberships of the listed groups whose user has a row in [users]:
    an entry (user, group, type) is returned exactly when [group_user] has
    such a row with the group among [groupIds] and the user present.  With
    no group listed the result is empty. *)
Theorem getAllUsersByGroups_entries (groupIds : list Z) (w : World) :
  online w ->
  exists l,
    fst (getAllUsersByGroups groupIds w) = Ok l
    /\ (forall e,
          In e l <->
          exists gu,
            In gu (group_user (committed w))
            /\ In (GroupUserRow.group_id gu) groupIds
            /\ has_user (GroupUserRow.user_id gu) (committed w) = true
            /\ e = IGroupUser.mk (GroupUserRow.user_id gu)
                     (GroupUserRow.group_id gu) (GroupUserRow.type gu))
    /\ (groupIds = [] -> l = []).
Proof.
  intros On. destruct (getAllUsersByGroups_ok groupIds On) as (l & E & Hl).
  exists l. split; [exact E | split; [exact Hl | ]].
  intros ->. destruct l as [ | e l]; [reflexivity | ].
  destruct (proj1 (Hl e) (or_introl eq_refl)) as (gu & _ & [] & _).
Qed.


(** ** What storage asks of a batch *)

Lemma insert_rows_refs (rows : list GroupUserRow.t) :
  membership_refs schema = true ->
  forall d d',
    insert_rows d rows = Ok d' ->
    forall r,
      In r rows ->
      has_group (GroupUserRow.group_id r) d = true
      /\ has_user (GroupUserRow.user_id r) d = true.
Proof.
  intros F. induction rows as [ | r0 rest IH]; intros d d' H r Hin.
  - destruct Hin.
  - simpl in H. destruct (refused d r0) eqn:Hr; [discriminate H | ].
    destruct Hin as [<- | Hin].
    + unfold refused in Hr. rewrite F in Hr.
      apply orb_false_iff in Hr. destruct Hr as [_ Hr]. simpl in Hr.
      apply negb_false_iff, andb_true_iff in Hr. exact Hr.
    + apply (IH _ _ H r Hin).
Qed.

Lemma insert_rows_unique (rows : list GroupUserRow.t) :
  membership_unique schema = true ->
  forall d d',
    insert_rows d rows = Ok d' ->
    NoDup (map key rows)
    /\ forall r, In r rows -> ~ In (key r) (map key (group_user d)).
Proof.
  intros U. induction rows as [ | r0 rest IH]; intros d d' H.
  - split; [constructor | intros r []].
  - simpl in H. destruct (refused d r0) eqn:Hr; [discriminate H | ].
    unfold refused in Hr. rewrite U in Hr.
    apply orb_false_iff in Hr. destruct Hr as [Hr _]. simpl in Hr.
    apply key_in_false in Hr.
    destruct (IH _ _ H) as [N Hfresh]. simpl in Hfresh. split.
    + simpl. constructor; [ | exact N].
      intros Hin. apply in_map_iff in Hin. destruct Hin as (r & E & Hin).
      apply (Hfresh r Hin). rewrite map_app, in_app_iff. right.
      simpl. left. symmetry. exact E.
    + intros r [<- | Hin]; [exact Hr | ].
      intros Hk. apply (Hfresh r Hin). rewrite map_app, in_app_iff.
      left. exact Hk.
Qed.

(** X6: a successful reconciliation as [getAllUsersByGroups] shows it.
    Where memberships must reference stored users, and the added and removed
    pairs are disjoint, after [updateGroupUsers] resolves the members read
    for the target group include every added user with the type asked for,
    and none of the entries read has a removed pair. *)
Theorem reconcile_visible (groupId : Z)
    (newUsers : list IGroupUserModel.t) (deletableUsers : list IGroupUser.t)
    (userName : string) (w w' : World) :
  membership_refs schema = true ->
  (forall u r,
     In u newUsers -> In r deletableUsers ->
     (groupId, IUser.id (IGroupUserModel.user u))
     <> (IGroupUser.groupId r, IGroupUser.userId r)) ->
  updateGroupUsers groupId newUsers deletableUsers userName w = (Ok tt, w') ->
  online w' ->
  exists l,
    fst (getAllUsersByGroups [groupId] w') = Ok l
    /\ (forall u,
          In u newUsers ->
          In (IGroupUser.mk (IUser.id (IGroupUserModel.user u)) groupId
                (IGroupUserModel.type u))
             l)
    /\ (forall r e,
          In r deletableUsers ->
          In e l ->
          (IGroupUser.groupId e, IGroupUser.userId e)
          <> (IGroupUser.groupId r, IGroupUser.userId r)).
Proof.
  intros F Hdis H On.
  apply updateGroupUsers_ok in H. cbv zeta in H. destruct H as [I Hw'].
  destruct (getAllUsersByGroups_ok [groupId] On) as (l & E & Hl).
  exists l. split; [exact E | ]. subst w'. simpl in Hl. split.
  - intros u Hu. apply Hl.
    exists (GroupUserRow.mk groupId (IUser.id (IGroupUserModel.user u))
              (IGroupUserModel.type u) userName).
    simpl. repeat split.
    + apply filter_In. split.
      * apply in_or_app. right. unfold membership_rows.
        apply in_map_iff. exists u. split; [reflexivity | exact Hu].
      * apply negb_true_iff, key_in_false. unfold removal_keys.
        rewrite in_map_iff. intros (r & Er & Hr).
        apply (Hdis u r Hu Hr). symmetry. exact Er.
    + left. reflexivity.
    + assert (Hin : In (GroupUserRow.mk groupId
                          (IUser.id (IGroupUserModel.user u))
                          (IGroupUserModel.type u) userName)
                      (membership_rows groupId newUsers userName)).
      { unfold membership_rows. apply in_map_iff. exists u.
        split; [reflexivity | exact Hu]. }
      destruct (insert_rows_refs _ F _ I _ Hin) as [_ Hu']. exact Hu'.
  - intros r e Hr He Eq. apply Hl in He.
    destruct He as (gu & Hgu & _ & _ & ->). simpl in Eq.
    apply filter_In in Hgu. destruct Hgu as [_ Hk].
    apply negb_true_iff, key_in_false in Hk. apply Hk.
    unfold removal_keys. apply in_map_iff. exists r.
    split; [symmetry; exact Eq | exact Hr].
Qed.

(** ** Creating and updating, seen by the other operations *)

Lemma find_app_miss (f : GroupRow.t -> bool) (rows : list GroupRow.t)
    (r : GroupRow.t) :
  f r = false -> find f (rows ++ [r]) = find f rows.
Proof.
  intros H. induction rows as [ | x rows IH]; simpl.
  - rewrite H. reflexivity.
  - destruct (f x); [reflexivity | exact IH].
Qed.

Lemma nth_error_filter_find {A} (f : A -> bool) (l : list A) :
  nth_error (filter f l) 0 = find f l.
Proof.
  induction l as [ | x l IH]; simpl; [reflexivity | ].
  destruct (f x); [reflexivity | exact IH].
Qed.

Lemma rename_twice (i : Z) (row : GroupColumns.t) (r : GroupRow.t) :
  rename i row (rename i row r) = rename i row r.
Proof.
  unfold rename at 2 3. destruct (Z.eqb (GroupRow.id r) i) eqn:E.
  - unfold rename. simpl. rewrite E.
    destruct (GroupColumns.description row); reflexivity.
  - unfold rename. rewrite E. reflexivity.
Qed.

Lemma has_group_renamed (i j : Z) (row : GroupColumns.t) (d : Db) :
  has_group j (with_groups (map (rename i row) (groups d)) d)
  = has_group j d.
Proof.
  unfold has_group. simpl. induction (groups d) as [ | r rows IH]; simpl.
  - reflexivity.
  - rewrite rename_id, IH. reflexivity.
Qed.

(** X7: a group that [create] resolved to is there for the existence
    checks: [exists] of its identifier and [existsWithName] of the name
    passed to [create] both resolve to true afterwards. *)
Theorem create_then_exists (group : IStoreGroup.t) (w w1 : World)
    (g : Group.t) :
  create group w = (Ok g, w1) ->
  online w1 ->
  fst (exists_ (Group.id g) w1) = Ok true
  /\ fst (existsWithName (IStoreGroup.name group) w1) = Ok true.
Proof.
  intros H On. rewrite create_run in H. cbv zeta in H.
  destruct (outage (length (log w))); [discriminate H | ].
  destruct (has_group (groups_id_seq w + 1) (committed w)
            || group_name_unique schema
               && has_name (IStoreGroup.name group) (groups (committed w)));
    [discriminate H | ].
  simpl in H. inversion H; subst g. subst w1. clear H.
  rewrite exists_run, existsWithName_run. cbv zeta.
  rewrite (online_next On). simpl. unfold has_group, has_name. simpl.
  rewrite !existsb_app. simpl.
  rewrite Z.eqb_refl, String.eqb_refl, !orb_true_r. split; reflexivity.
Qed.

(** X8: what [create] touches.  Whatever the outcome it sends one insert
    and leaves [group_user], [users] and any open transaction alone, and the
    sequence never goes back; when it resolves, [groups] is the old table
    with one row appended, and when it rejects the committed tables are
    unchanged. *)
Theorem create_frame (group : IStoreGroup.t) (w : World) :
  let w' := snd (create group w) in
  group_user (committed w') = group_user (committed w)
  /\ users (committed w') = users (committed w)
  /\ inflight w' = inflight w
  /\ (groups_id_seq w <= groups_id_seq w')%Z
  /\ log w' = log w ++ [InsertReturning Pool GROUPS (groupToRow group)]
  /\ match fst (create group w) with
     | Ok g =>
         exists r,
           groups (committed w') = groups (committed w) ++ [r]
           /\ rowToGroup (Some r) = Ok g
     | Err _ => committed w' = committed w
     end.
Proof.
  intros w'. subst w'. rewrite create_run. cbv zeta.
  destruct (outage (length (log w))); simpl.
  - repeat split. lia.
  - destruct (has_group (groups_id_seq w + 1) (committed w)
              || group_name_unique schema
                 && has_name (IStoreGroup.name group)
                      (groups (committed w)));
      simpl.
    + repeat split. lia.
    + repeat split; [lia | ]. eexists. split; reflexivity.
Qed.

(** X9: creating a group does not disturb the others: after [create]
    resolves, [get] of any other identifier gives what it gave before. *)
Theorem create_keeps_others (group : IStoreGroup.t) (w w1 : World)
    (g : Group.t) (id : Z) :
  create group w = (Ok g, w1) ->
  id <> Group.id g ->
  online w ->
  online w1 ->
  fst (get id w1) = fst (get id w).
Proof.
  intros H Hid On On1. rewrite create_run in H. cbv zeta in H.
  destruct (outage (length (log w))); [discriminate H | ].
  destruct (has_group (groups_id_seq w + 1) (committed w)
            || group_name_unique schema
               && has_name (IStoreGroup.name group) (groups (committed w)));
    [discriminate H | ].
  simpl in H. inversion H; subst g. subst w1. clear H.
  rewrite !get_run. cbv zeta.
  rewrite (online_next On), (online_next On1). simpl.
  rewrite find_app_miss; [reflexivity | ].
  simpl. apply Z.eqb_neq. intros E. apply Hid. symmetry. exact E.
Qed.


Lemma renamed_ids (i : Z) (row : GroupColumns.t) (rows : list GroupRow.t) :
  map GroupRow.id (map (rename i row) rows) = map GroupRow.id rows
  /\ map GroupRow.created_at (map (rename i row) rows)
     = map GroupRow.created_at rows
  /\ map GroupRow.created_by (map (rename i row) rows)
     = map GroupRow.created_by rows.
Proof.
  rewrite !map_map. repeat split; apply map_ext; intros r; unfold rename;
    destruct (Z.eqb (GroupRow.id r) i); reflexivity.
Qed.

Lemma renamed_others (i : Z) (row : GroupColumns.t)
    (rows : list GroupRow.t) :
  filter (fun r => negb (Z.eqb (GroupRow.id r) i)) (map (rename i row) rows)
  = filter (fun r => negb (Z.eqb (GroupRow.id r) i)) rows.
Proof.
  induction rows as [ | r rows IH]; simpl; [reflexivity | ].
  rewrite rename_id, IH.
  destruct (Z.eqb (GroupRow.id r) i) eqn:E; simpl; [reflexivity | ].
  unfold rename. rewrite E. reflexivity.
Qed.

(** X10: what [update] touches.  Whatever the outcome it sends one update
    and leaves [group_user], [users], the sequence and any open transaction
    alone; in [groups] no row is added or dropped, no row changes its
    identifier, creation time or creator, and the rows of other identifiers
    are unchanged. *)
Theorem update_frame (group : IGroupModel.t) (w : World) :
  let w' := snd (update group w) in
  let other r := negb (Z.eqb (GroupRow.id r) (IGroupModel.id group)) in
  group_user (committed w') = group_user (committed w)
  /\ users (committed w') = users (committed w)
  /\ inflight w' = inflight w
  /\ groups_id_seq w' = groups_id_seq w
  /\ log w'
     = log w
       ++ [UpdateReturning Pool GROUPS (IGroupModel.id group)
             (GroupColumns.mk (IGroupModel.name group)
                (IGroupModel.description group))]
  /\ map GroupRow.id (groups (committed w'))
     = map GroupRow.id (groups (committed w))
  /\ map GroupRow.created_at (groups (committed w'))
     = map GroupRow.created_at (groups (committed w))
  /\ map GroupRow.created_by (groups (committed w'))
     = map GroupRow.created_by (groups (committed w))
  /\ filter other (groups (committed w'))
     = filter other (groups (committed w)).
Proof.
  intros w' other. subst w' other. rewrite update_run. cbv zeta.
  destruct (outage (length (log w))); simpl; [repeat split | ].
  destruct (group_name_unique schema
            && has_group (IGroupModel.id group) (committed w)
            && Nat.ltb 1 _);
    simpl; [repeat split | ].
  destruct (renamed_ids (IGroupModel.id group)
              (GroupColumns.mk (IGroupModel.name group)
                 (IGroupModel.description group))
              (groups (committed w))) as (E1 & E2 & E3).
  repeat split; try assumption. apply renamed_others.
Qed.

(** X11: after [update] resolves to a group, [get] of the same identifier
    resolves to that very group. *)
Theorem update_get (group : IGroupModel.t) (w w1 : World) (g : Group.t) :
  update group w = (Ok g, w1) ->
  online w1 ->
  fst (get (IGroupModel.id group) w1) = Ok g.
Proof.
  intros H On. rewrite update_run in H. cbv zeta in H.
  destruct (outage (length (log w))); [discriminate H | ].
  destruct (group_name_unique schema
            && has_group (IGroupModel.id group) (committed w)
            && Nat.ltb 1 _);
    [discriminate H | ].
  pose proof (online_next On) as O.
  injection H as Hg Hw. subst w1.
  rewrite get_run. cbv zeta. rewrite O. simpl committed. simpl groups.
  simpl fst. rewrite <- nth_error_filter_find. exact Hg.
Qed.

(** X12: [update] is idempotent: once it has resolved, calling it again
    with the same group resolves to the same group and leaves the tables as
    the first call left them. *)
Theorem update_idempotent (group : IGroupModel.t) (w w1 : World)
    (g : Group.t) :
  update group w = (Ok g, w1) ->
  online w1 ->
  exists w2,
    update group w1 = (Ok g, w2) /\ committed w2 = committed w1.
Proof.
  intros H On. rewrite update_run in H. cbv zeta in H.
  destruct (outage (length (log w))); [discriminate H | ].
  destruct (group_name_unique schema
            && has_group (IGroupModel.id group) (committed w)
            && Nat.ltb 1 _) eqn:C;
    [discriminate H | ].
  pose proof (online_next On) as O.
  injection H as Hg Hw. subst w1.
  rewrite update_run. cbv zeta. rewrite O.
  simpl committed. simpl groups.
  rewrite has_group_renamed.
  assert (Hmm : map
                  (rename (IGroupModel.id group)
                     (GroupColumns.mk (IGroupModel.name group)
                        (IGroupModel.description group)))
                  (map
                     (rename (IGroupModel.id group)
                        (GroupColumns.mk (IGroupModel.name group)
                           (IGroupModel.description group)))
                     (groups (committed w)))
                = map
                    (rename (IGroupModel.id group)
                       (GroupColumns.mk (IGroupModel.name group)
                          (IGroupModel.description group)))
                    (groups (committed w))).
  { rewrite map_map. apply map_ext. intros r. apply rename_twice. }
  rewrite Hmm, C. eexists. split.
  - apply f_equal2; [exact Hg | reflexivity].
  - reflexivity.
Qed.

(** ** Edges of the reconciliation *)

Lemma filter_all {A} (f : A -> bool) (l : list A) :
  (forall x, In x l -> f x = true) -> filter f l = l.
Proof.
  induction l as [ | x l IH]; intros H; simpl; [reflexivity | ].
  rewrite (H x (or_introl eq_refl)). f_equal. apply IH.
  intros y Hy. apply H. right. exact Hy.
Qed.

(** X13: with nothing to add and only pairs to remove that no membership
    has (in particular with both lists empty), [updateGroupUsers] on a
    gateway that reaches storage resolves and leaves the committed tables
    exactly as they were. *)
Theorem updateGroupUsers_nothing (groupId : Z)
    (deletableUsers : list IGroupUser.t) (userName : string) (w : World) :
  online w ->
  (forall row r,
     In row (group_user (committed w)) ->
     In r deletableUsers ->
     key row <> (IGroupUser.groupId r, IGroupUser.userId r)) ->
  exists w',
    updateGroupUsers groupId [] deletableUsers userName w = (Ok tt, w')
    /\ committed w' = committed w.
Proof.
  intros On Hnone. rewrite updateGroupUsers_run. cbv zeta.
  rewrite (online_next On).
  rewrite (On (S (length (log w)))) by lia.
  rewrite (On (S (S (length (log w))))) by lia.
  rewrite (On (S (S (S (length (log w)))))) by lia.
  simpl. eexists. split; [reflexivity | ]. simpl.
  rewrite filter_all.
  - destruct (committed w); reflexivity.
  - intros row Hrow. apply negb_true_iff, key_in_false.
    unfold removal_keys. rewrite in_map_iff. intros (r & E & Hr).
    apply (Hnone row r Hrow Hr). symmetry. exact E.
Qed.

(** X14: [deleteOldUsersFromGroup] is idempotent: on a usable handle and a
    gateway that reaches storage, a second call with the same records
    resolves too and leaves the tables as the first call left them. *)
Theorem deleteOldUsersFromGroup_idempotent
    (deletableUsers : list IGroupUser.t) (transaction : option Knex)
    (w : World) (d : Db) :
  snapshot (or_db transaction) w = Some d ->
  online w ->
  let w1 := snd (deleteOldUsersFromGroup deletableUsers transaction w) in
  let out := deleteOldUsersFromGroup deletableUsers transaction w1 in
  fst out = Ok tt
  /\ snapshot (or_db transaction) (snd out)
     = snapshot (or_db transaction) w1.
Proof.
  intros Hs On w1 out. subst out w1.
  unfold deleteOldUsersFromGroup. fold (removal_keys deletableUsers).
  rewrite (whereIn_delete_run _ _ w), Hs. cbv zeta.
  rewrite (online_next On). simpl snd.
  rewrite whereIn_delete_run, snapshot_publish. cbv zeta.
  rewrite log_publish. simpl log. rewrite length_app. simpl length.
  rewrite Nat.add_1_r. rewrite (On (S (length (log w)))) by lia.
  simpl fst. simpl snd. rewrite !snapshot_publish.
  split; [reflexivity | ]. f_equal. unfold with_group_user. simpl.
  f_equal. apply filter_twice. intros r Hr. exact Hr.
Qed.

(** X15: [addNewUsersToGroup] does not filter what it inserts, and the
    insert comes before the delete.  So where memberships are unique, a call
    of [updateGroupUsers] whose add set names a user twice, or a user who is
    already a member of the group (also when the same call removes that
    membership), is rejected with a constraint violation once it reaches
    storage, and changes nothing. *)
Theorem updateGroupUsers_duplicate (groupId : Z)
    (newUsers : list IGroupUserModel.t) (deletableUsers : list IGroupUser.t)
    (userName : string) (w : World) :
  membership_unique schema = true ->
  online w ->
  (~ NoDup (added_keys groupId newUsers)
   \/ exists u,
        In u newUsers
        /\ In (groupId, IUser.id (IGroupUserModel.user u))
             (map key (group_user (committed w)))) ->
  exists w',
    updateGroupUsers groupId newUsers deletableUsers userName w
    = (Err ConstraintViolation, w')
    /\ committed w' = committed w.
Proof.
  intros U On Hbad. rewrite updateGroupUsers_run. cbv zeta.
  rewrite (online_next On).
  rewrite (On (S (length (log w)))) by lia.
  destruct (insert_rows (committed w)
              (membership_rows groupId newUsers userName))
    as [d1 | e] eqn:I.
  - exfalso. destruct (insert_rows_unique _ U _ I) as [N Hfresh].
    destruct Hbad as [Hdup | (u & Hu & Hin)].
    + apply Hdup. unfold added_keys.
      unfold membership_rows in N. rewrite map_map in N. exact N.
    + apply (Hfresh
               (GroupUserRow.mk groupId (IUser.id (IGroupUserModel.user u))
                  (IGroupUserModel.type u) userName)).
      * unfold membership_rows. apply in_map_iff. exists u.
        split; [reflexivity | exact Hu].
      * exact Hin.
  - apply insert_rows_err in I. subst e. eexists.
    split; reflexivity.
Qed.

(** X16: where memberships must reference stored groups and users, a call
    of [updateGroupUsers] that adds a user without a row in [users], or adds
    anyone to a group without a row in [groups], is rejected with a
    constraint violation once it reaches storage, and changes nothing. *)
Theorem updateGroupUsers_unknown (groupId : Z)
    (newUsers : list IGroupUserModel.t) (deletableUsers : list IGroupUser.t)
    (userName : string) (w : World) (u : IGroupUserModel.t) :
  membership_refs schema = true ->
  online w ->
  In u newUsers ->
  has_user (IUser.id (IGroupUserModel.user u)) (committed w) = false
  \/ has_group groupId (committed w) = false ->
  exists w',
    updateGroupUsers groupId newUsers deletableUsers userName w
    = (Err ConstraintViolation, w')
    /\ committed w' = committed w.
Proof.
  intros F On Hu Hbad. rewrite updateGroupUsers_run. cbv zeta.
  rewrite (online_next On).
  rewrite (On (S (length (log w)))) by lia.
  destruct (insert_rows (committed w)
              (membership_rows groupId newUsers userName))
    as [d1 | e] eqn:I.
  - exfalso.
    destruct (insert_rows_refs _ F _ I
                (GroupUserRow.mk groupId (IUser.id (IGroupUserModel.user u))
                   (IGroupUserModel.type u) userName))
      as [Hg Hus].
    + unfold membership_rows. apply in_map_iff. exists u.
      split; [reflexivity | exact Hu].
    + simpl in Hg, Hus. destruct Hbad as [Hb | Hb]; congruence.
  - apply insert_rows_err in I. subst e. eexists.
    split; reflexivity.
Qed.


(** X17: the two helpers write only where their handle points.  Given the
    handle of a transaction they leave the committed tables alone, whatever
    the outcome; given none they work on the pool and leave an open
    transaction's copy alone. *)
Theorem helpers_keep_to_their_handle (groupId : Z)
    (users : list IGroupUserModel.t) (userName : string)
    (deletableUsers : list IGroupUser.t) (w : World) :
  committed (snd (addNewUsersToGroup groupId users userName (Some Trx) w))
  = committed w
  /\ committed (snd (deleteOldUsersFromGroup deletableUsers (Some Trx) w))
     = committed w
  /\ inflight (snd (addNewUsersToGroup groupId users userName None w))
     = inflight w
  /\ inflight (snd (deleteOldUsersFromGroup deletableUsers None w))
     = inflight w.
Proof.
  unfold addNewUsersToGroup, deleteOldUsersFromGroup.
  rewrite !batchInsert_run, !whereIn_delete_run. simpl or_db.
  simpl snapshot. cbv zeta.
  destruct (inflight w) as [d | ] eqn:I;
    destruct (outage (length (log w)));
    repeat
      match goal with
      | |- context [insert_rows ?d ?rows] => destruct (insert_rows d rows)
      end;
    simpl; rewrite ?I; repeat split.
Qed.

Lemma flat_map_filter_void {A B} (f : A -> list B) (p : A -> bool)
    (l : list A) :
  (forall x, In x l -> p x = false -> f x = []) ->
  flat_map f (filter p l) = flat_map f l.
Proof.
  induction l as [ | x l IH]; intros H; simpl; [reflexivity | ].
  destruct (p x) eqn:P; simpl.
  - rewrite IH; [reflexivity | ]. intros y Hy. apply H. right. exact Hy.
  - rewrite (H x (or_introl eq_refl) P). simpl. apply IH.
    intros y Hy. apply H. right. exact Hy.
Qed.

Lemma flat_map_void {A B} (f : A -> list B) (l : list A) :
  (forall x, In x l -> f x = []) -> flat_map f l = [].
Proof.
  induction l as [ | x l IH]; intros H; simpl; [reflexivity | ].
  rewrite (H x (or_introl eq_refl)). simpl. apply IH.
  intros y Hy. apply H. right. exact Hy.
Qed.

(** X18: a reconciliation that stays within its group does not show in the
    others: when every removal record names the target group, the members
    that [getAllUsersByGroups] reads for any other group are the same after
    a successful [updateGroupUsers] as before. *)
Theorem reconcile_keeps_other_groups (groupId other : Z)
    (newUsers : list IGroupUserModel.t) (deletableUsers : list IGroupUser.t)
    (userName : string) (w w' : World) :
  (forall r, In r deletableUsers -> IGroupUser.groupId r = groupId) ->
  other <> groupId ->
  updateGroupUsers groupId newUsers deletableUsers userName w = (Ok tt, w') ->
  online w ->
  online w' ->
  fst (getAllUsersByGroups [other] w') = fst (getAllUsersByGroups [other] w).
Proof.
  intros Hsame Hother H On On'.
  apply updateGroupUsers_ok in H. cbv zeta in H. destruct H as [_ Hw'].
  rewrite !getAllUsersByGroups_run. cbv zeta.
  rewrite (online_next On), (online_next On'). simpl fst.
  f_equal. subst w'. unfold join_users. simpl.
  rewrite flat_map_filter_void.
  - rewrite flat_map_app.
    rewrite (@flat_map_void _ _ _
               (membership_rows groupId newUsers userName)).
    + apply app_nil_r.
    + intros x Hx. unfold membership_rows in Hx. apply in_map_iff in Hx.
      destruct Hx as (u & <- & _). simpl.
      rewrite (proj2 (Z.eqb_neq groupId other)); [reflexivity | ].
      intros E. apply Hother. symmetry. exact E.
  - intros x _ Hx. apply negb_false_iff, key_in_In in Hx.
    unfold removal_keys in Hx. apply in_map_iff in Hx.
    destruct Hx as (r & E & Hr). unfold key in E.
    injection E as Eg Eu. simpl. rewrite <- Eg, (Hsame r Hr).
    rewrite (proj2 (Z.eqb_neq groupId other)); [reflexivity | ].
    intros E'. apply Hother. symmetry. exact E'.
Qed.

Lemma map_result_groups_eq (rows : list GroupRow.t) :
  map_result rowToGroup (map Some rows)
  = Ok (map
          (fun r =>
             Group.mk (GroupRow.id r) (GroupRow.name r)
               (GroupRow.description r) (GroupRow.created_at r)
               (GroupRow.created_by r))
          rows).
Proof.
  induction rows as [ | r rows IH]; simpl; [reflexivity | ].
  rewrite IH. reflexivity.
Qed.

(** X19: a created group is listed with the others: after [create]
    resolves to a group, [getAll] resolves to that group together with
    exactly the groups it listed before, one entry more; nothing is said of
    the order. *)
Theorem create_getAll (group : IStoreGroup.t) (w w1 : World)
    (g : Group.t) :
  create group w = (Ok g, w1) ->
  online w ->
  online w1 ->
  exists l l1,
    fst (getAll w) = Ok l
    /\ fst (getAll w1) = Ok l1
    /\ Permutation l1 (g :: l).
Proof.
  intros H On On1. pose proof (online_next On1) as O1.
  rewrite create_run in H. cbv zeta in H.
  destruct (outage (length (log w))) eqn:O; [discriminate H | ].
  destruct (has_group (groups_id_seq w + 1) (committed w)
            || group_name_unique schema
               && has_name (IStoreGroup.name group) (groups (committed w)));
    [discriminate H | ].
  injection H as Hg Hw. subst w1.
  rewrite !getAll_run. cbv zeta. rewrite O, O1. simpl fst.
  rewrite !map_result_groups_eq. eexists. eexists.
  split; [reflexivity | ]. split; [reflexivity | ].
  simpl committed. simpl groups. rewrite map_app. simpl. rewrite <- Hg.
  apply Permutation_sym, Permutation_cons_append.
Qed.

End GroupStore.

(** ** The results at work on the sample worlds *)

(** The scenario of the spec: "admins" has member 10; adding 11 as owner and
    removing 10 leaves exactly (1, 11, "owner") in group 1. *)
Example reconcile_scenario :
  fst (getAllUsersByGroups calm [1%Z]
         (snd (updateGroupUsers strict calm 1 add_owner remove_member "sys"
                 admins)))
  = Ok [IGroupUser.mk 11 1 "owner"].
Proof. reflexivity. Qed.

Example existsWithName_scenario :
  fst (existsWithName calm "devs"
         (snd (create strict calm (IStoreGroup.mk "devs" None None) admins)))
  = Ok true
  /\ fst (existsWithName calm "devs" admins) = Ok false.
Proof. split; reflexivity. Qed.

(** An update that carries no description leaves the stored one. *)
Example update_keeps_description :
  let w1 := snd (update strict calm rename_admins admins) in
  fst (update strict calm (IGroupModel.mk 1 "crew" None) w1)
  = Ok (Group.mk 1 "crew" (Some "all"%string) 0 None).
Proof. reflexivity. Qed.

(** Without the constraint the same add set goes in twice. *)
Example duplicates_without_constraint :
  let w1 :=
    snd (updateGroupUsers lax calm 1 add_owner remove_member "sys" admins) in
  fst (updateGroupUsers lax calm 1 add_owner remove_member "sys" w1) = Ok tt.
Proof. reflexivity. Qed.

(** Why both helpers are given the handle: an insert sent on the pool stays
    when the transaction around it is rolled back. *)
Example pool_insert_outlives_rollback :
  let out :=
    transaction (lost_at 2)
      (fun tx =>
         addNewUsersToGroup strict (lost_at 2) 1 add_owner "sys" None ;;;
         deleteOldUsersFromGroup (lost_at 2) remove_member (Some tx))
      admins in
  fst out = Err ConnectivityFailure
  /\ group_user (committed (snd out))
     = group_user admins_db ++ membership_rows 1 add_owner "sys".
Proof. split; reflexivity. Qed.

(** The delete is lost after the insert went through: the call rejects and
    the membership of user 11 is not there. *)
Lemma updateGroupUsers_atomic_witness :
  let out :=
    updateGroupUsers strict (lost_at 2) 1 add_owner remove_member "sys"
      admins in
  lost_at 2 (S (S (length (log admins)))) = true
  /\ (exists e, fst out = Err e)
  /\ committed (snd out) = committed admins
  /\ inflight (snd out) = inflight admins.
Proof.
  intros out. split; [reflexivity | ].
  destruct (@updateGroupUsers_atomic strict (lost_at 2) 1 add_owner
              remove_member "sys" admins)
    as (Hfail & _ & Hsame & _).
  destruct Hfail as [e He].
  { right. right. left. reflexivity. }
  split; [exists e; exact He | ].
  destruct (Hsame e He) as (Hc & Hi & _).
  split; [exact Hc | exact Hi].
Defined.

Lemma updateGroupUsers_members_witness :
  let out :=
    updateGroupUsers strict calm 1 add_owner remove_member "sys" admins in
  out = (Ok tt, snd out)
  /\ (forall u,
        In u add_owner ->
        In (GroupUserRow.mk 1 (IUser.id (IGroupUserModel.user u))
              (IGroupUserModel.type u) "sys")
           (group_user (committed (snd out))))
  /\ (forall r row,
        In r remove_member ->
        In row (group_user (committed (snd out))) ->
        key row <> (IGroupUser.groupId r, IGroupUser.userId r)).
Proof.
  intros out. split; [reflexivity | ].
  apply (@updateGroupUsers_members strict calm 1 add_owner remove_member
           "sys" admins (snd out)).
  - intros u r [<- | []] [<- | []]. simpl. discriminate.
  - reflexivity.
Defined.

(** Adding user 11 and removing the same pair in one call can be done over
    and over, also where memberships are unique. *)
Lemma second_call_can_succeed : ~ second_call_always_fails strict calm.
Proof.
  intros H.
  destruct (H 1%Z add_owner remove_owner "sys"%string admins
              (snd (updateGroupUsers strict calm 1 add_owner remove_owner
                      "sys" admins)))
    as [w2 E].
  - reflexivity.
  - discriminate.
  - reflexivity.
  - intros n _. reflexivity.
  - vm_compute in E. discriminate E.
Qed.

Lemma updateGroupUsers_twice_witness :
  let w1 :=
    snd (updateGroupUsers strict calm 1 add_owner remove_member "sys"
           admins) in
  membership_unique strict = true
  /\ exists w2,
       updateGroupUsers strict calm 1 add_owner remove_guest "ann" w1
       = (Err ConstraintViolation, w2)
       /\ committed w2 = committed w1
       /\ log w2
          = log w1
            ++ [BEGIN;
                BatchInsert Trx GROUP_USER (membership_rows 1 add_owner "ann");
                ROLLBACK].
Proof.
  intros w1. split; [reflexivity | ].
  apply (@updateGroupUsers_twice strict calm 1 add_owner remove_member
           remove_guest "sys" "ann" admins w1).
  - reflexivity.
  - exists (IGroupUserModel.mk (IUser.mk 11) "owner").
    split; [left; reflexivity | ].
    simpl. intros [E | []]. discriminate E.
  - reflexivity.
  - intros n _. reflexivity.
Defined.

Lemma addNewUsersToGroup_rows_witness :
  let out := addNewUsersToGroup strict calm 1 add_owner "sys" None admins in
  fst out = Ok tt
  /\ exists rows,
       Forall2 (stamped 1 "sys") add_owner rows
       /\ log (snd out) = log admins ++ [BatchInsert Pool GROUP_USER rows]
       /\ (fst out = Ok tt ->
           snapshot Pool (snd out)
           = Some (with_group_user (group_user admins_db ++ rows) admins_db))
       /\ (fst out <> Ok tt -> snapshot Pool (snd out) = Some admins_db)
       /\ (calm (length (log admins)) = false ->
           membership_unique strict = false ->
           membership_refs strict = false ->
           fst out = Ok tt).
Proof.
  intros out. split; [reflexivity | ].
  apply (@addNewUsersToGroup_rows strict calm 1 add_owner "sys" None admins
           admins_db).
  reflexivity.
Defined.

(** A removal that names group 2 is carried out by a call for group 1. *)
Lemma deleteOldUsersFromGroup_set_witness :
  fst (deleteOldUsersFromGroup calm remove_guest None admins) = Ok tt
  /\ forall row,
       In row
         (group_user
            (committed
               (snd (updateGroupUsers strict calm 1 add_owner remove_guest
                       "sys" admins)))) ->
       key row <> (2%Z, 10%Z).
Proof.
  destruct (@deleteOldUsersFromGroup_set strict calm remove_guest)
    as [D U].
  split.
  - destruct (D None admins admins_db eq_refl eq_refl) as [X _]. exact X.
  - intros row Hrow.
    apply (U 1%Z add_owner "sys"%string admins
             (snd (updateGroupUsers strict calm 1 add_owner remove_guest
                     "sys" admins))
             (IGroupUser.mk 10 2 "member") row);
      [reflexivity | left; reflexivity | exact Hrow].
Defined.

Lemma get_absent_witness :
  fst (get calm 3 admins) = Err NotFoundError
  /\ fst (exists_ calm 3 admins) = Ok false.
Proof.
  assert (Habs : forall r, In r (groups (committed admins)) ->
                           GroupRow.id r <> 3%Z).
  { intros r [<- | [<- | []]]; discriminate. }
  destruct (@get_absent calm 3%Z admins Habs) as [_ X].
  apply X. intros n _. reflexivity.
Defined.

Lemma create_get_witness :
  let group := IStoreGroup.mk "devs" (Some "developers"%string) (Some "ann"%string) in
  let g := Group.mk 3 "devs" (Some "developers"%string) 1 None in
  let out := create strict calm group admins in
  out = (Ok g, snd out)
  /\ fst (get calm 3 (snd out)) = Ok g
  /\ Group.name g = IStoreGroup.name group
  /\ Group.description g = IStoreGroup.description group.
Proof.
  intros group g out. split; [reflexivity | ].
  apply (@create_get strict calm group admins (snd out) g).
  - reflexivity.
  - intros n _. reflexivity.
Defined.

Lemma create_discards_creator_witness :
  let group := IStoreGroup.mk "devs" (Some "developers"%string) (Some "ann"%string) in
  let out := create strict calm group admins in
  create strict calm (IStoreGroup.mk "devs" (Some "developers"%string) None) admins
  = out
  /\ groups (committed (snd out))
     = groups admins_db
       ++ [GroupRow.mk 3 "devs" (Some "developers"%string) 1 None].
Proof.
  intros group out.
  destruct (@create_discards_creator strict calm group None admins)
    as [E F].
  split; [exact E | ].
  destruct (F (Group.mk 3 "devs" (Some "developers"%string) 1 None) (snd out)
              eq_refl) as [_ X].
  exact X.
Defined.


(** ** The further results at work on the sample worlds *)

Lemma calm_online (w : World) : online calm w.
Proof. intros n _. reflexivity. Qed.

Lemma admins_keyed : NoDup (map GroupRow.id (groups (committed admins))).
Proof. simpl. repeat constructor; simpl; intuition discriminate. Qed.

Lemma get_present_witness :
  fst (get calm 2 admins) = Ok (Group.mk 2 "guests" None 0 None).
Proof.
  apply (@get_present calm (GroupRow.mk 2 "guests" None 0 None) admins).
  - exact admins_keyed.
  - right. left. reflexivity.
  - apply calm_online.
Defined.

Lemma exists_iff_get_witness :
  (fst (exists_ calm 1 admins) = Ok true <->
   exists g, fst (get calm 1 admins) = Ok g)
  /\ (fst (exists_ calm 1 admins) = Ok false <->
      fst (get calm 1 admins) = Err NotFoundError).
Proof.
  apply (@exists_iff_get calm 1%Z admins). apply calm_online.
Defined.

Lemma getAll_rows_witness :
  exists l,
    fst (getAll calm admins) = Ok l
    /\ Forall2 (fun r g => rowToGroup (Some r) = Ok g)
         (groups (committed admins)) l.
Proof.
  destruct (getAll_rows calm admins) as [_ X].
  apply X. apply calm_online.
Defined.

Lemma getAllUsersByGroups_entries_witness :
  exists l,
    fst (getAllUsersByGroups calm [1%Z] admins) = Ok l
    /\ (forall e,
          In e l <->
          exists gu,
            In gu (group_user (committed admins))
            /\ In (GroupUserRow.group_id gu) [1%Z]
            /\ has_user (GroupUserRow.user_id gu) (committed admins) = true
            /\ e = IGroupUser.mk (GroupUserRow.user_id gu)
                     (GroupUserRow.group_id gu) (GroupUserRow.type gu))
    /\ ([1%Z] = [] -> l = []).
Proof.
  apply (@getAllUsersByGroups_entries calm [1%Z] admins).
  apply calm_online.
Defined.

Lemma reconcile_visible_witness :
  let w' :=
    snd (updateGroupUsers strict calm 1 add_owner remove_member "sys"
           admins) in
  exists l,
    fst (getAllUsersByGroups calm [1%Z] w') = Ok l
    /\ (forall u,
          In u add_owner ->
          In (IGroupUser.mk (IUser.id (IGroupUserModel.user u)) 1
                (IGroupUserModel.type u))
             l)
    /\ (forall r e,
          In r remove_member ->
          In e l ->
          (IGroupUser.groupId e, IGroupUser.userId e)
          <> (IGroupUser.groupId r, IGroupUser.userId r)).
Proof.
  intros w'.
  apply (@reconcile_visible strict calm 1%Z add_owner remove_member
           "sys"%string admins w').
  - reflexivity.
  - intros u r [<- | []] [<- | []]. simpl. discriminate.
  - reflexivity.
  - apply calm_online.
Defined.

Lemma create_then_exists_witness :
  let out := create strict calm new_devs admins in
  fst (exists_ calm 3 (snd out)) = Ok true
  /\ fst (existsWithName calm "devs" (snd out)) = Ok true.
Proof.
  intros out.
  apply (@create_then_exists strict calm new_devs admins (snd out)
           (Group.mk 3 "devs" (Some "developers"%string) 1 None)).
  - reflexivity.
  - apply calm_online.
Defined.

Lemma create_keeps_others_witness :
  fst (get calm 1 (snd (create strict calm new_devs admins)))
  = fst (get calm 1 admins).
Proof.
  apply (@create_keeps_others strict calm new_devs admins
           (snd (create strict calm new_devs admins))
           (Group.mk 3 "devs" (Some "developers"%string) 1 None) 1%Z).
  - reflexivity.
  - simpl. discriminate.
  - apply calm_online.
  - apply calm_online.
Defined.

Lemma update_get_witness :
  fst (get calm 1 (snd (update strict calm rename_admins admins)))
  = Ok (Group.mk 1 "root" (Some "all"%string) 0 None).
Proof.
  apply (@update_get strict calm rename_admins admins
           (snd (update strict calm rename_admins admins))
           (Group.mk 1 "root" (Some "all"%string) 0 None)).
  - reflexivity.
  - apply calm_online.
Defined.

Lemma update_idempotent_witness :
  let w1 := snd (update strict calm rename_admins admins) in
  exists w2,
    update strict calm rename_admins w1
    = (Ok (Group.mk 1 "root" (Some "all"%string) 0 None), w2)
    /\ committed w2 = committed w1.
Proof.
  intros w1.
  apply (@update_idempotent strict calm rename_admins admins w1
           (Group.mk 1 "root" (Some "all"%string) 0 None)).
  - reflexivity.
  - apply calm_online.
Defined.

Lemma updateGroupUsers_nothing_witness :
  exists w',
    updateGroupUsers strict calm 1 [] remove_owner "sys" admins = (Ok tt, w')
    /\ committed w' = committed admins.
Proof.
  apply (@updateGroupUsers_nothing strict calm 1%Z remove_owner
           "sys"%string admins).
  - apply calm_online.
  - intros row r [<- | [<- | []]] [<- | []]; simpl; discriminate.
Defined.

Lemma deleteOldUsersFromGroup_idempotent_witness :
  let w1 := snd (deleteOldUsersFromGroup calm remove_member None admins) in
  let out := deleteOldUsersFromGroup calm remove_member None w1 in
  fst out = Ok tt /\ snapshot Pool (snd out) = snapshot Pool w1.
Proof.
  apply (@deleteOldUsersFromGroup_idempotent calm remove_member None admins
           admins_db).
  - reflexivity.
  - apply calm_online.
Defined.

(** Changing the type of member 10 by adding the new membership and
    removing the old one in the same call is refused. *)
Lemma updateGroupUsers_duplicate_witness :
  exists w',
    updateGroupUsers strict calm 1 add_member_again remove_member "sys"
      admins
    = (Err ConstraintViolation, w')
    /\ committed w' = committed admins.
Proof.
  apply (@updateGroupUsers_duplicate strict calm 1%Z add_member_again
           remove_member "sys"%string admins).
  - reflexivity.
  - apply calm_online.
  - right. exists (IGroupUserModel.mk (IUser.mk 10) "owner").
    split; [left; reflexivity | left; reflexivity].
Defined.

Lemma updateGroupUsers_unknown_witness :
  exists w',
    updateGroupUsers strict calm 1 add_stranger [] "sys" admins
    = (Err ConstraintViolation, w')
    /\ committed w' = committed admins.
Proof.
  apply (@updateGroupUsers_unknown strict calm 1%Z add_stranger []
           "sys"%string admins (IGroupUserModel.mk (IUser.mk 99) "member")).
  - reflexivity.
  - apply calm_online.
  - left. reflexivity.
  - left. reflexivity.
Defined.

Lemma reconcile_keeps_other_groups_witness :
  fst (getAllUsersByGroups calm [2%Z]
         (snd (updateGroupUsers strict calm 1 add_owner remove_member "sys"
                 admins)))
  = fst (getAllUsersByGroups calm [2%Z] admins).
Proof.
  apply (@reconcile_keeps_other_groups strict calm 1%Z 2%Z add_owner
           remove_member "sys"%string admins
           (snd (updateGroupUsers strict calm 1 add_owner remove_member
                   "sys" admins))).
  - intros r [<- | []]. reflexivity.
  - discriminate.
  - reflexivity.
  - apply calm_online.
  - apply calm_online.
Defined.

Lemma create_getAll_witness :
  let w1 := snd (create strict calm new_devs admins) in
  exists l l1,
    fst (getAll calm admins) = Ok l
    /\ fst (getAll calm w1) = Ok l1
    /\ Permutation l1
         (Group.mk 3 "devs" (Some "developers"%string) 1 None :: l).
Proof.
  intros w1.
  apply (@create_getAll strict calm new_devs admins w1
           (Group.mk 3 "devs" (Some "developers"%string) 1 None)).
  - reflexivity.
  - apply calm_online.
  - apply calm_online.
Defined.
